(** * talk_through: recording / transcription orchestration of [main.py]

    A shallow embedding of the core of the dictation utility:
    - [auto_punctuate], the text post-processing heuristic;
    - [AudioRecorder], the capture buffer around a sounddevice input stream;
    - [VoicyController], the Idle/Recording state machine and the
      transcription worker.

    Python exceptions are values of [res]; code that mutates an object and
    may raise is a function from the object's state to a result and the
    state reached when the call returned or raised.  Calls into libraries
    (sounddevice, the speech model, the Unicode tables of the runtime) are
    parameters of the operations that make them. *)

From Stdlib Require Import List Bool NArith ZArith String Ascii Lia.
From Stdlib Require Import Floats.SpecFloat.
Import ListNotations.

(** ** Results and exceptions *)

Inductive exn : Type :=
| IndexError
| ValueError
| PortAudioError
| ModelError.

Inductive res (A : Type) : Type :=
| Ok (a : A)
| Raise (e : exn).

Arguments Ok {A} a.
Arguments Raise {A} e.

(** A computation over a mutable object of type [S]: the state survives an
    exception, as the attributes of a Python object do. *)
Definition M (S A : Type) : Type := S -> res A * S.

Class Monad (T : Type -> Type) : Type := {
  ret : forall A, A -> T A;
  bind : forall A B, T A -> (A -> T B) -> T B
}.

Arguments ret {T _ A} _.
Arguments bind {T _ A B} _ _.

#[global] Instance res_monad : Monad res := {
  ret := fun A a => Ok a;
  bind := fun A B m k => match m with Ok a => k a | Raise e => Raise e end
}.

#[global] Instance M_monad (S : Type) : Monad (M S) := {
  ret := fun A a s => (Ok a, s);
  bind := fun A B m k s =>
    match m s with
    | (Ok a, s') => k a s'
    | (Raise e, s') => (Raise e, s')
    end
}.

Declare Scope py_scope.
Delimit Scope py_scope with py.
Notation "x <- m ;; k" := (bind m (fun x => k))
  (at level 100, m at next level, right associativity) : py_scope.
Notation "m ;;; k" := (bind m (fun _ => k))
  (at level 100, right associativity) : py_scope.
Open Scope py_scope.

Definition raise {S A : Type} (e : exn) : M S A := fun s => (Raise e, s).
Definition get {S : Type} : M S S := fun s => (Ok s, s).
Definition modify {S : Type} (f : S -> S) : M S unit := fun s => (Ok tt, f s).

(** [try ... except Exception as e: handler e]. *)
Definition try_except {S A : Type} (body : M S A) (handler : exn -> M S A) : M S A :=
  fun s =>
    match body s with
    | (Ok a, s') => (Ok a, s')
    | (Raise e, s') => handler e s'
    end.

(** ** Text: Python [str] as a sequence of Unicode code points *)

Module Text.

#[local] Open Scope N_scope.

Definition char : Type := N.
Definition str : Type := list char.

(** A string literal of the source, read as its code points. *)
Definition lit (s : string) : str := map N_of_ascii (list_ascii_of_string s).

(** [a == b] on strings. *)
Fixpoint str_eqb (a b : str) : bool :=
  match a, b with
  | [], [] => true
  | x :: a', y :: b' => (x =? y) && str_eqb a' b'
  | _, _ => false
  end.

(** [str.isspace] of one character, the test [str.strip()] uses: the
    white-space code points of the Unicode database of CPython. *)
Definition isspace (c : char) : bool :=
  ((9 <=? c) && (c <=? 13)) || ((28 <=? c) && (c <=? 32))
  || (c =? 133) || (c =? 160) || (c =? 5760)
  || ((8192 <=? c) && (c <=? 8202))
  || (c =? 8232) || (c =? 8233) || (c =? 8239) || (c =? 8287) || (c =? 12288).

Fixpoint lstrip (s : str) : str :=
  match s with
  | [] => []
  | c :: s' => if isspace c then lstrip s' else s
  end.

Definition rstrip (s : str) : str := rev (lstrip (rev s)).

(** [text.strip()] *)
Definition strip (s : str) : str := rstrip (lstrip s).

(** [ch in t] for a one-character [ch]. *)
Definition contains (ch : char) (t : str) : bool := existsb (N.eqb ch) t.

(** [t[0]]: raises [IndexError] on the empty string. *)
Definition first_char (t : str) : res char :=
  match t with
  | [] => Raise IndexError
  | c :: _ => Ok c
  end.

(** [t[-1]]: raises [IndexError] on the empty string. *)
Definition last_char (t : str) : res char :=
  match rev t with
  | [] => Raise IndexError
  | c :: _ => Ok c
  end.

(** [t[1:]]: a slice never raises. *)
Definition slice_from_1 (t : str) : str := skipn 1 t.

(** [not t] for a string. *)
Definition is_empty (t : str) : bool :=
  match t with [] => true | _ => false end.

(** [sep.join(parts)] *)
Fixpoint join (sep : str) (parts : list str) : str :=
  match parts with
  | [] => []
  | [p] => p
  | p :: ps => p ++ sep ++ join sep ps
  end.

Section CaseTable.

(** [str.upper] outside ASCII is the full upper-case mapping of the
    Unicode tables of the Python runtime: one character may map to
    several (U+00DF to "SS").  The table is not part of the repository and
    is a parameter here. *)
Variable upper_nonascii : char -> str.

Definition upper_char (c : char) : str :=
  if c <? 128 then
    (if (97 <=? c) && (c <=? 122) then [c - 32] else [c])
  else upper_nonascii c.

(** [s.upper()] *)
Definition upper (s : str) : str := flat_map upper_char s.

(** [auto_punctuate], lines 64-75. *)
Definition auto_punctuate (text : str) : res str :=
  let t := strip text in
  if is_empty t then Ok t
  else
    c0 <- first_char t ;;
    let t := upper [c0] ++ slice_from_1 t in
    if negb (existsb (fun ch => contains ch t) (lit ".?!")) then
      Ok (t ++ lit ".")
    else
      cl <- last_char t ;;
      if negb (contains cl (lit ".?!")) then Ok (t ++ lit ".")
      else Ok t.

(** What a case table has to satisfy, character by character, for the
    statements below: the upper-case form is not empty, begins with a
    character that is not white space and is its own upper-case form, and
    does not end in a sentence terminator. *)
Definition upper_ok (c : char) : bool :=
  match upper_nonascii c with
  | [] => false
  | c' :: w =>
      negb (isspace c')
      && str_eqb (upper_char c') [c']
      && negb (contains (last (c' :: w) 0) (lit ".?!"))
  end.

Definition case_table_ok : Prop :=
  forall c : char, 128 <= c -> isspace c = false -> upper_ok c = true.

End CaseTable.

(** [c in ".?!"]: a sentence terminator. *)
Definition terminal (c : char) : bool := contains c (lit ".?!").

(** The string ends in a sentence terminator. *)
Definition ends_in_terminal (t : str) : bool :=
  match rev t with
  | [] => false
  | c :: _ => terminal c
  end.

(** The post-processing in the words of the specification: the first
    character of the stripped string in upper case, the other characters as
    they are, and a period after them unless the stripped string ends in a
    sentence terminator. *)
Definition capitalize_first (upper_nonascii : char -> str) (t : str) : str :=
  match t with
  | [] => []
  | c :: rest => upper upper_nonascii [c] ++ rest
  end.

Definition punctuated (upper_nonascii : char -> str) (text : str) : str :=
  let t := strip text in
  capitalize_first upper_nonascii t
  ++ (if ends_in_terminal t then [] else lit ".").

(** A stripped string: empty, or white space neither first nor last. *)
Definition trimmed (t : str) : Prop :=
  match t with
  | [] => True
  | c :: _ => isspace c = false /\ isspace (last t 0) = false
  end.

(** The trivial table, for caseless scripts. *)
Definition caseless (c : char) : str := [c].

(** A fragment of the real table: Latin-1. *)
Definition latin1_upper (c : char) : str :=
  if c =? 223 then [83; 83]
  else if c =? 181 then [924]
  else if c =? 255 then [376]
  else if (224 <=? c) && (c <=? 254) && negb (c =? 247) then [c - 32]
  else [c].

End Text.

(** ** AudioRecorder: the capture buffer *)

Module Audio.

(** Samples are IEEE binary32 numbers: sounddevice delivers [float32] blocks
    by default, and [np.mean] of a [float32] array computes in [float32]. *)
Definition prec : Z := 24.
Definition emax : Z := 128.
Definition float32 : Type := spec_float.

Definition f32_add : float32 -> float32 -> float32 := SFadd prec emax.
Definition f32_div : float32 -> float32 -> float32 := SFdiv prec emax.
Definition f32_zero : float32 := S754_zero false.

(** The binary32 number nearest to an integer. *)
Definition f32 (z : Z) : float32 := binary_normalize prec emax z 0 false.

(** [x.astype(np.float32)] of one number: rounding to 24 bits of precision. *)
Definition astype_float32 (x : spec_float) : float32 :=
  match x with
  | S754_finite s m e => binary_round prec emax s m e
  | _ => x
  end.

(** One instant of a block: one sample per channel. *)
Definition row : Type := list float32.

(** An [ndarray] of shape [(frames, channels)]: its number of columns and
    its rows, each of as many entries ([block_wf]).  The number of columns
    is part of the array also when it has no row. *)
Record block : Type := ndarray {
  ncols : nat;
  rows : list row
}.

Definition block_wf (b : block) : Prop :=
  Forall (fun r : row => List.length r = ncols b) (rows b).

(** The rows of a sequence of blocks, first block first. *)
Definition all_rows (frames : list block) : list row :=
  List.concat (map rows frames).

(** The blocks agree on the number of columns. *)
Definition same_width (frames : list block) : bool :=
  match frames with
  | [] => true
  | b :: bs => forallb (fun b' => ncols b' =? ncols b) bs
  end.

(** [np.concatenate(frames, axis=0)]: [ValueError] on an empty sequence and
    on arrays that differ in the number of columns. *)
Definition concatenate (frames : list block) : res block :=
  match frames with
  | [] => Raise ValueError
  | b :: _ =>
      if same_width frames then Ok (ndarray (ncols b) (all_rows frames))
      else Raise ValueError
  end.

Definition f32_neg_zero : float32 := S754_zero true.

(** [r[j] += a[j]] for the eight accumulators. *)
Fixpoint add_lanes (r a : list float32) : list float32 :=
  match r, a with
  | x :: r', y :: a' => f32_add x y :: add_lanes r' a'
  | _, _ => r
  end.

(** The loop over the whole groups of eight after the first: the
    accumulators, and the entries left over, fewer than eight. *)
Fixpoint accumulate (fuel : nat) (r a : list float32)
  : list float32 * list float32 :=
  match fuel with
  | O => (r, a)
  | S fuel' =>
      if 8 <=? List.length a
      then accumulate fuel' (add_lanes r (firstn 8 a)) (skipn 8 a)
      else (r, a)
  end.

(** [((r0 + r1) + (r2 + r3)) + ((r4 + r5) + (r6 + r7))] *)
Definition join_lanes (r : list float32) : float32 :=
  match r with
  | [r0; r1; r2; r3; r4; r5; r6; r7] =>
      f32_add (f32_add (f32_add r0 r1) (f32_add r2 r3))
              (f32_add (f32_add r4 r5) (f32_add r6 r7))
  | _ => f32_zero
  end.

(** The sum of 8 to 128 entries: eight accumulators, then the rest one
    by one. *)
Definition unrolled_sum (a : list float32) : float32 :=
  let (r, rest) := accumulate (List.length a) (firstn 8 a) (skipn 8 a) in
  fold_left f32_add rest (join_lanes r).

(** numpy's pairwise summation of the entries of one row
    ([FLOAT_pairwise_sum]): fewer than 8 entries are added one by one from
    left to right; up to 128 with eight accumulators; more are split in two
    parts, the first of a multiple of 8 entries, summed apart and added.
    [fuel] bounds the depth of the splitting; the length of the row is
    enough ([pairwise_sum_fuel]). *)
Fixpoint pairwise_sum (fuel : nat) (a : list float32) : float32 :=
  let n := List.length a in
  if n <? 8 then fold_left f32_add a f32_neg_zero
  else if n <=? 128 then unrolled_sum a
  else
    match fuel with
    | O => f32_zero
    | S fuel' =>
        let n2 := n / 2 - (n / 2) mod 8 in
        f32_add (pairwise_sum fuel' (firstn n2 a))
                (pairwise_sum fuel' (skipn n2 a))
    end.

(** [np.add.reduce] over one row: the sum of the row added to the
    identity 0. *)
Definition row_sum (r : row) : float32 :=
  f32_add f32_zero (pairwise_sum (List.length r) r).

(** The mean of one row of an array of [n] columns: the sum of the row
    divided by [n]. *)
Definition mean (n : nat) (r : row) : float32 :=
  f32_div (row_sum r) (f32 (Z.of_nat n)).

(** [np.mean(audio, axis=1)] *)
Definition mean_axis1 (audio : block) : list float32 :=
  map (mean (ncols audio)) (rows audio).

(** Entry 0 of every row. *)
Definition first_column (rs : list row) : list float32 :=
  map (fun r : row => hd f32_zero r) rs.

(** [audio[:, 0]]: [IndexError] when the array has no column. *)
Definition column0 (audio : block) : res (list float32) :=
  if ncols audio =? 0 then Raise IndexError
  else Ok (first_column (rows audio)).

(** The [sd.InputStream] object held in [self._stream]. *)
Inductive InputStream : Type :=
| Created     (* constructed, not started *)
| Active      (* [start()] succeeded *)
| Stopped.    (* [stop()] was called *)

(** What the audio device does when asked: the constructor of
    [sd.InputStream] and its [start()] raise [PortAudioError] on failure;
    [stop()] and [close()] are called with their default [ignore_errors=True]
    and do not raise. *)
Record device : Type := {
  open_fails : bool;
  start_fails : bool
}.

Definition working : device := {| open_fails := false; start_fails := false |}.

(** The attributes of an [AudioRecorder] (the lock is left out: calls are
    executed one after the other). *)
Record AudioRecorder : Type := {
  samplerate : N;
  channels : nat;
  _queue : list block;
  _stream : option InputStream
}.

Definition set_queue (q : list block) (r : AudioRecorder) : AudioRecorder :=
  {| samplerate := samplerate r; channels := channels r;
     _queue := q; _stream := _stream r |}.

Definition set_stream (s : option InputStream) (r : AudioRecorder) : AudioRecorder :=
  {| samplerate := samplerate r; channels := channels r;
     _queue := _queue r; _stream := s |}.

(** [AudioRecorder.__init__] *)
Definition new_recorder (rate : N) (chans : nat) : AudioRecorder :=
  {| samplerate := rate; channels := chans; _queue := []; _stream := None |}.

(** [_callback]: the audio thread appends a copy of the block. *)
Definition _callback (indata : block) : M AudioRecorder unit :=
  modify (fun r => set_queue (_queue r ++ [indata]) r).

(** [while not self._queue.empty(): ... self._queue.get_nowait()]: takes
    everything out of the queue, oldest first. *)
Definition drain : M AudioRecorder (list block) :=
  fun r => (Ok (_queue r), set_queue [] r).

(** [sd.InputStream(samplerate=..., channels=..., callback=...)] *)
Definition open_stream (sd : device) : M AudioRecorder InputStream :=
  if open_fails sd then raise PortAudioError else ret Created.

(** [self._stream.start()] *)
Definition stream_start (sd : device) : M AudioRecorder unit :=
  if start_fails sd then raise PortAudioError
  else modify (set_stream (Some Active)).

(** [self._stream.stop()] *)
Definition stream_stop : M AudioRecorder unit :=
  modify (set_stream (Some Stopped)).

(** [self._stream.close()] *)
Definition stream_close : M AudioRecorder unit := ret tt.

Definition is_none {A : Type} (o : option A) : bool :=
  match o with None => true | Some _ => false end.

Definition is_nil {A : Type} (l : list A) : bool :=
  match l with [] => true | _ => false end.

Definition lift {S A : Type} (x : res A) : M S A := fun s => (x, s).

(** [AudioRecorder.start], lines 96-110. *)
Definition start (sd : device) : M AudioRecorder unit :=
  r <- get ;;
  if negb (is_none (_stream r)) then ret tt
  else
    (_ <- drain ;;
     stream <- open_stream sd ;;
     (modify (set_stream (Some stream)) ;;;
      stream_start sd)).

(** [AudioRecorder.stop_and_get_audio], lines 112-135. *)
Definition stop_and_get_audio : M AudioRecorder (option (list float32)) :=
  r <- get ;;
  if is_none (_stream r) then ret None
  else
    (stream_stop ;;;
     stream_close ;;;
     modify (set_stream None) ;;;
     (frames <- drain ;;
      if is_nil frames then ret None
      else
        (audio <- lift (concatenate frames) ;;
         audio <- (if (1 <? channels r)%nat then ret (mean_axis1 audio)
                   else lift (column0 audio)) ;;
         ret (Some (map astype_float32 audio))))).

(** The audio thread delivers blocks one after the other. *)
Definition deliver (blocks : list block) (r : AudioRecorder) : AudioRecorder :=
  fold_left (fun r indata => snd (_callback indata r)) blocks r.

(** The two-channel clip of the specification: one frame, 1.0 and 3.0. *)
Definition stereo_clip : AudioRecorder :=
  {| samplerate := 16000; channels := 2;
     _queue := [ndarray 2 [[f32 1; f32 3]]]; _stream := Some Active |}.


End Audio.

(** ** VoicyController: the recording state machine and the worker *)

Module Controller.

Import Text Audio.

(** What the controller does that can be seen from outside, in the order it
    happens. *)
Inductive effect : Type :=
| recording_changed (value : bool)
    (* [self.events.recording_changed.emit(value)] *)
| text_ready (text : str)
    (* [self.events.text_ready.emit(text)] *)
| thread_started (audio : list float32)
    (* [threading.Thread(target=self._transcribe_and_emit, args=(audio,)).start()] *)
| printed (msg : string) (e : exn).
    (* [print(msg, e, file=sys.stderr)] *)

(** The options the core reads; [None] is a key absent from the mapping. *)
Record Config : Type := {
  language : option str;
  auto_punct : option bool
}.

(** [d.get(key, default)] *)
Definition dict_get {A : Type} (entry : option A) (default : A) : A :=
  match entry with Some v => v | None => default end.

(** [self.model.transcribe(audio, language=lang_arg, beam_size=5)] followed
    by the iteration over the segments: the texts of the segments, or an
    exception. *)
Definition WhisperModel : Type := list float32 -> option str -> res (list str).

Record VoicyController : Type := {
  config : Config;
  recorder : AudioRecorder;
  _recording : bool;
  log : list effect
}.

Definition set_recorder (r : AudioRecorder) (c : VoicyController) : VoicyController :=
  {| config := config c; recorder := r; _recording := _recording c; log := log c |}.

Definition set_flag (b : bool) (c : VoicyController) : VoicyController :=
  {| config := config c; recorder := recorder c; _recording := b; log := log c |}.

Definition perform (e : effect) : M VoicyController unit :=
  modify (fun c => {| config := config c; recorder := recorder c;
                      _recording := _recording c; log := log c ++ [e] |}).

(** [VoicyController.__init__] *)
Definition new_controller (cfg : Config) : VoicyController :=
  {| config := cfg; recorder := new_recorder 16000 1;
     _recording := false; log := [] |}.

(** A method call on [self.recorder]. *)
Definition on_recorder {A : Type} (m : M AudioRecorder A) : M VoicyController A :=
  fun c => let (x, r) := m (recorder c) in (x, set_recorder r c).

(** The [recording] property. *)
Definition recording : M VoicyController bool :=
  c <- get ;; ret (_recording c).

(** [_set_recording], lines 155-158. *)
Definition _set_recording (value : bool) : M VoicyController unit :=
  modify (set_flag value) ;;;
  perform (recording_changed value).

(** [_start_recording], lines 176-181. *)
Definition _start_recording (sd : device) : M VoicyController unit :=
  try_except
    (on_recorder (start sd) ;;;
     _set_recording true)
    (fun e => perform (printed "Error starting recording:" e)).

(** [_stop_and_transcribe], lines 183-196. *)
Definition _stop_and_transcribe : M VoicyController unit :=
  _set_recording false ;;;
  (audio <- try_except
              (on_recorder stop_and_get_audio)
              (fun e => perform (printed "Error stopping recording:" e) ;;;
                        ret None) ;;
   match audio with
   | None => ret tt
   | Some a =>
       if (List.length a =? 0)%nat then ret tt
       else perform (thread_started a)
   end).

(** [hold_to_talk_down], lines 160-163. *)
Definition hold_to_talk_down (sd : device) : M VoicyController unit :=
  b <- recording ;;
  if b then ret tt else _start_recording sd.

(** [hold_to_talk_up], lines 165-168. *)
Definition hold_to_talk_up : M VoicyController unit :=
  b <- recording ;;
  if negb b then ret tt else _stop_and_transcribe.

(** [toggle_recording], lines 170-174. *)
Definition toggle_recording (sd : device) : M VoicyController unit :=
  b <- recording ;;
  if b then _stop_and_transcribe else _start_recording sd.

(** The language argument computed at lines 200-204. *)
Definition lang_arg (cfg : Config) : option str :=
  let lang_cfg := dict_get (language cfg) (lit "auto") in
  if str_eqb lang_cfg (lit "auto") then None else Some lang_cfg.

Section Worker.

Variable upper_nonascii : char -> str.

(** [_transcribe_and_emit], lines 198-214. *)
Definition _transcribe_and_emit (model : WhisperModel) (audio : list float32)
  : M VoicyController unit :=
  try_except
    (c <- get ;;
     text_parts <- lift (model audio (lang_arg (config c))) ;;
     let text := strip (join (lit " ") text_parts) in
     if is_empty text then ret tt
     else
       (text <- (if dict_get (auto_punct (config c)) true
                 then lift (auto_punctuate upper_nonascii text)
                 else ret text) ;;
        perform (text_ready text)))
    (fun e => perform (printed "Transcription error:" e)).

(** What can happen to a controller, one thing at a time: a trigger calls
    one of the three entry points, the audio thread delivers a block, or a
    transcription thread runs. *)
Inductive input : Type :=
| HoldDown (sd : device)
| HoldUp
| Toggle (sd : device)
| Frame (indata : block)
| Worker (model : WhisperModel) (audio : list float32).

Definition step (i : input) (c : VoicyController) : VoicyController :=
  match i with
  | HoldDown sd => snd (hold_to_talk_down sd c)
  | HoldUp => snd (hold_to_talk_up c)
  | Toggle sd => snd (toggle_recording sd c)
  | Frame indata => snd (on_recorder (_callback indata) c)
  | Worker model audio => snd (_transcribe_and_emit model audio c)
  end.

Definition run (ins : list input) (c : VoicyController) : VoicyController :=
  fold_left (fun c i => step i c) ins c.

(** The flag changes along a run: the new value of [_recording] at every
    step that changes it. *)
Fixpoint transitions (ins : list input) (c : VoicyController) : list bool :=
  match ins with
  | [] => []
  | i :: ins' =>
      let c' := step i c in
      (if Bool.eqb (_recording c) (_recording c') then [] else [_recording c'])
      ++ transitions ins' c'
  end.

End Worker.

(** A device whose stream can be constructed and cannot be started. *)
Definition unstartable : device :=
  {| open_fails := false; start_fails := true |}.

(** A device without a microphone. *)
Definition absent : device := {| open_fails := true; start_fails := false |}.

Definition default_config : Config :=
  {| language := Some (lit "auto"); auto_punct := Some true |}.

(** The payloads of the recording-state-changed notifications of a log. *)
Fixpoint notifications (l : list effect) : list bool :=
  match l with
  | [] => []
  | recording_changed b :: l' => b :: notifications l'
  | _ :: l' => notifications l'
  end.

(** The texts published in a log. *)
Fixpoint published (l : list effect) : list str :=
  match l with
  | [] => []
  | text_ready t :: l' => t :: published l'
  | _ :: l' => published l'
  end.

(** The clips handed to transcription threads in a log. *)
Fixpoint submitted (l : list effect) : list (list float32) :=
  match l with
  | [] => []
  | thread_started a :: l' => a :: submitted l'
  | _ :: l' => submitted l'
  end.

End Controller.

Import Text Audio Controller.

(** ** Configuration: the option mapping and its file *)

Module Settings.

Import Text.

(** The Python values a JSON document decodes to. *)
#[warnings="-register-all"] Inductive value : Type :=
| VNone
| VBool (b : bool)
| VInt (z : Z)
| VStr (s : str)
| VList (l : list value)
| VDict (items : list (str * value)).

(** A [dict] with string keys, as its items in insertion order; the keys of
    a Python dict are pairwise different ([dict_wf]). *)
Definition dict : Type := list (str * value).

Definition keys (d : dict) : list str := map fst d.

Definition dict_wf (d : dict) : Prop := NoDup (keys d).

(** [d.get(k)] : [None] when the key is absent. *)
Fixpoint lookup (k : str) (d : dict) : option value :=
  match d with
  | [] => None
  | (k', v) :: d' => if str_eqb k k' then Some v else lookup k d'
  end.

(** [d[k] = v]: replaces the value of a present key where it stands, puts
    a new key last. *)
Fixpoint setitem (k : str) (v : value) (d : dict) : dict :=
  match d with
  | [] => [(k, v)]
  | (k', v') :: d' =>
      if str_eqb k k' then (k', v) :: d' else (k', v') :: setitem k v d'
  end.

(** [d.update(data)] *)
Definition update (d data : dict) : dict :=
  fold_left (fun acc kv => setitem (fst kv) (snd kv) acc) data d.

(** [DEFAULT_CONFIG], lines 34-40. *)
Definition DEFAULT_CONFIG : dict :=
  [ (lit "model_size", VStr (lit "small"));
    (lit "language", VStr (lit "auto"));
    (lit "hold_hotkey", VStr (lit "ctrl+space"));
    (lit "toggle_hotkey", VStr (lit "ctrl+shift+space"));
    (lit "auto_punct", VBool true) ].

(** The file at [CONFIG_PATH]: absent; present but [open] or [json.load]
    raises on it; or present and decoding to a value. *)
Inductive file : Type :=
| Missing
| Unreadable (e : exn)
| Holds (data : value).

(** [os.path.exists(CONFIG_PATH)] *)
Definition path_exists (f : file) : bool :=
  match f with Missing => false | _ => true end.

(** [with open(CONFIG_PATH, "r") as f: data = json.load(f)] *)
Definition json_load (f : file) : res value :=
  match f with
  | Missing => Raise ValueError
  | Unreadable e => Raise e
  | Holds data => Ok data
  end.

(** [load_config], lines 43-53. *)
Definition load_config (f : file) : dict :=
  let cfg := DEFAULT_CONFIG in
  if path_exists f then
    match
      (data <- json_load f ;;
       match data with
       | VDict items => ret (update cfg items)
       | _ => ret cfg
       end)
    with
    | Ok cfg' => cfg'
    | Raise _ => cfg
    end
  else cfg.

(** What happens when the file is written: [open(CONFIG_PATH, "w")] raises
    and the file stays as it was; or the file is opened, and so emptied, and
    [json.dump] raises before the document is complete; or the document is
    written, and decodes to the mapping again. *)
Inductive writing : Type :=
| OpenRaises (e : exn)
| DumpRaises (e : exn)
| Written.

(** The disk and the standard error stream. *)
Record disk : Type := {
  config_file : file;
  stderr : list (string * exn)
}.

Definition write_file (f : file) : M disk unit :=
  modify (fun d => {| config_file := f; stderr := stderr d |}).

Definition print_stderr (msg : string) (e : exn) : M disk unit :=
  modify (fun d => {| config_file := config_file d;
                      stderr := stderr d ++ [(msg, e)] |}).

(** [with open(CONFIG_PATH, "w") as f: json.dump(cfg, f, indent=2)] *)
Definition json_dump (w : writing) (cfg : dict) : M disk unit :=
  match w with
  | OpenRaises e => raise e
  | DumpRaises e => write_file (Unreadable ValueError) ;;; raise e
  | Written => write_file (Holds (VDict cfg))
  end.

(** [save_config], lines 56-61. *)
Definition save_config (w : writing) (cfg : dict) : M disk unit :=
  try_except
    (json_dump w cfg)
    (fun e => print_stderr "Failed to save config:" e).

(** What the widgets of the settings dialog hold when Save is pressed:
    [currentText()], [currentData()] and [isChecked()]. *)
Record widgets : Type := {
  model_combo : str;
  lang_combo : value;
  hold_combo : str;
  toggle_combo : str;
  auto_punct_check : bool
}.

(** The assignments of [SettingsDialog.on_save], lines 296-300. *)
Definition chosen (ws : widgets) (config : dict) : dict :=
  setitem (lit "auto_punct") (VBool (auto_punct_check ws))
    (setitem (lit "toggle_hotkey") (VStr (toggle_combo ws))
       (setitem (lit "hold_hotkey") (VStr (hold_combo ws))
          (setitem (lit "language") (lang_combo ws)
             (setitem (lit "model_size") (VStr (model_combo ws)) config)))).

(** [SettingsDialog.on_save], lines 295-308, on the dialog's copy of the
    mapping: the mapping it leaves, and the disk. *)
Definition on_save (w : writing) (ws : widgets) (config : dict)
  : M disk dict :=
  let config := chosen ws config in
  save_config w config ;;; ret config.

End Settings.

(** ** Hotkeys: the hold-to-talk key and its handlers *)

Module Hotkeys.

Import Text Audio Controller.

(** [s.split(sep)] for a separator of one character: never empty, one part
    more than there are separators. *)
Fixpoint split (sep : char) (s : str) : list str :=
  match s with
  | [] => [[]]
  | c :: s' =>
      if (c =? sep)%N then [] :: split sep s'
      else match split sep s' with
           | [] => [[c]]
           | p :: ps => (c :: p) :: ps
           end
  end.

Definition plus : char := 43%N.

Definition str_eq_dec : forall a b : str, {a = b} + {a <> b} :=
  list_eq_dec N.eq_dec.

(** [set(l)]: the members of [l], each once; only membership is used. *)
Definition set_of (l : list str) : list str := nodup str_eq_dec l.

Section Lower.

(** [str.lower], from the Unicode tables of the Python runtime. *)
Variable lower : str -> str.

(** The parts of line 371: the pieces between the plus signs that are not
    blank, stripped and in lower case. *)
Definition hotkey_parts (hotkey_str : str) : list str :=
  map (fun p => lower (strip p))
    (filter (fun p => negb (is_empty (strip p))) (split plus hotkey_str)).

(** [parse_hold_hotkey], lines 370-376.  [parts[-1]] is reached with a
    list that is not empty. *)
Definition parse_hold_hotkey (hotkey_str : str) : str * list str :=
  let parts := hotkey_parts hotkey_str in
  if is_nil parts then (lit "space", set_of [lit "ctrl"])
  else
    let base := last parts [] in
    let mods := set_of (removelast parts) in
    (base, mods).

End Lower.

(** [str.lower] on ASCII; the identity elsewhere, a stand-in for the tables. *)
Definition ascii_lower (s : str) : str :=
  map (fun c => if ((65 <=? c) && (c <=? 90))%N then (c + 32)%N else c) s.

(** [on_key_down] of [setup_hotkeys], lines 382-385; [is_pressed] is
    [keyboard.is_pressed] at the time of the event. *)
Definition on_key_down (hold : str * list str) (is_pressed : str -> bool)
    (sd : device) (event_name : str) : M VoicyController unit :=
  let (hold_base, hold_mods) := hold in
  if str_eqb event_name hold_base then
    if forallb is_pressed hold_mods then hold_to_talk_down sd
    else ret tt
  else ret tt.

(** [on_key_up] of [setup_hotkeys], lines 387-389. *)
Definition on_key_up (hold : str * list str) (event_name : str)
  : M VoicyController unit :=
  let (hold_base, hold_mods) := hold in
  if str_eqb event_name hold_base then hold_to_talk_up
  else ret tt.

End Hotkeys.

(** ** DotWindow: the indicator and the text injection *)

Module Dot.

Import Text Controller.

(** The attributes of a [DotWindow] the handlers touch, and what
    [pyautogui] typed and what went to stderr. *)
Record DotWindow : Type := {
  _recording : bool;
  typed : list str;
  stderr : list (string * exn)
}.

(** [DotWindow.__init__]: the indicator starts idle. *)
Definition new_dot : DotWindow :=
  {| _recording := false; typed := []; stderr := [] |}.

(** [on_recording_changed], lines 338-340. *)
Definition on_recording_changed (is_rec : bool) : M DotWindow unit :=
  modify (fun d => {| _recording := is_rec; typed := typed d;
                      stderr := stderr d |}).

(** [pyautogui.typewrite(text)]: types the text or raises. *)
Definition typewrite (keyboard : str -> res unit) (text : str)
  : M DotWindow unit :=
  match keyboard text with
  | Ok _ => modify (fun d => {| _recording := _recording d;
                                typed := typed d ++ [text];
                                stderr := stderr d |})
  | Raise e => raise e
  end.

(** [on_text_ready], lines 342-347. *)
Definition on_text_ready (keyboard : str -> res unit) (text : str)
  : M DotWindow unit :=
  try_except
    (typewrite keyboard text)
    (fun e => modify (fun d => {| _recording := _recording d;
                                  typed := typed d;
                                  stderr := stderr d ++ [("Typing error:"%string, e)] |})).

(** The colour [paintEvent] fills the dot with, lines 352-355. *)
Definition color (d : DotWindow) : Z * Z * Z :=
  if _recording d then (255, 59, 59)%Z else (76, 111, 255)%Z.

(** The two signals are connected to the two slots, lines 335-336; the
    other effects of the controller do not reach the window. *)
Definition slot (keyboard : str -> res unit) (e : effect) (d : DotWindow)
  : DotWindow :=
  match e with
  | recording_changed is_rec => snd (on_recording_changed is_rec d)
  | text_ready text => snd (on_text_ready keyboard text d)
  | _ => d
  end.

(** The window after the signals of a log, in the order of emission. *)
Definition deliver_signals (keyboard : str -> res unit) (l : list effect)
    (d : DotWindow) : DotWindow :=
  fold_left (fun d e => slot keyboard e d) l d.

Definition is_ok {A : Type} (x : res A) : bool :=
  match x with Ok _ => true | Raise _ => false end.

End Dot.

(** ** Shapes of audio and of notification lists, for the statements *)

Module Shapes.

Import Audio.

(** Every block has [n] columns, and rows of [n] entries. *)
Definition blocks_of_width (n : nat) (frames : list block) : Prop :=
  Forall (fun b => ncols b = n /\ block_wf b) frames.

(** A list of booleans in which no value follows itself, after [prev]. *)
Fixpoint alternates (prev : bool) (l : list bool) : bool :=
  match l with
  | [] => true
  | b :: l' => negb (Bool.eqb b prev) && alternates b l'
  end.

(** A string of white space only. *)
Definition blank (s : Text.str) : bool := forallb Text.isspace s.

(** The input does not meet a stream whose [start()] raises. *)
Definition starts (i : Controller.input) : bool :=
  match i with
  | Controller.HoldDown sd | Controller.Toggle sd => negb (start_fails sd)
  | _ => true
  end.

End Shapes.

(** * Proof automation *)

(** Comparisons on code points, through their boolean tests. *)
Ltac bool_N :=
  repeat (rewrite ?orb_false_iff, ?andb_false_iff, ?orb_true_iff,
            ?andb_true_iff, ?negb_true_iff, ?negb_false_iff,
            ?N.leb_le, ?N.leb_gt, ?N.eqb_eq, ?N.eqb_neq,
            ?N.ltb_lt, ?N.ltb_ge in *);
  lia.

(** Unfolds the monadic plumbing of a method body. *)
Ltac run_M :=
  cbv [bind ret M_monad res_monad get modify raise try_except lift
       on_recorder perform recording _set_recording drain open_stream
       stream_start stream_stop stream_close set_flag set_recorder];
  cbn [fst snd config recorder _recording log].

(** Splits a conjunction and closes what holds by computation. *)
Ltac conjs :=
  repeat match goal with |- _ /\ _ => split end; try reflexivity.

(** * Facts about the text post-processing *)

Lemma str_eqb_eq (a b : str) : str_eqb a b = true <-> a = b.
Proof.
  revert b. induction a as [| x a IH]; intros [| y b]; simpl;
    try (split; [discriminate | congruence]); [tauto |].
  rewrite andb_true_iff, N.eqb_eq, IH. split.
  - now intros [-> ->].
  - intros E. now injection E.
Qed.

Lemma terminal_cases (c : char) :
  terminal c = true <-> (c = 46 \/ c = 63 \/ c = 33)%N.
Proof.
  unfold terminal, contains. cbn. bool_N.
Qed.

Lemma terminal_not_space (c : char) : terminal c = true -> isspace c = false.
Proof.
  rewrite terminal_cases. intros [-> | [-> | ->]]; reflexivity.
Qed.

Lemma lstrip_snoc (l : str) (c : char) :
  isspace c = false -> lstrip (l ++ [c]) = lstrip l ++ [c].
Proof.
  intros Hc. induction l as [| x l IH]; simpl.
  - now rewrite Hc.
  - destruct (isspace x); [exact IH | reflexivity].
Qed.

Lemma lstrip_head (s r : str) (c : char) :
  lstrip s = c :: r -> isspace c = false.
Proof.
  induction s as [| x s IH]; simpl; [discriminate |].
  destruct (isspace x) eqn:Hx; [exact IH |].
  intros E. injection E as <- _. exact Hx.
Qed.

Lemma rstrip_cons (c : char) (r : str) :
  isspace c = false -> rstrip (c :: r) = c :: rstrip r.
Proof.
  intros Hc. unfold rstrip. simpl rev.
  rewrite (lstrip_snoc _ _ Hc), rev_app_distr. reflexivity.
Qed.

Lemma rstrip_last (r : str) :
  rstrip r = [] \/ isspace (last (rstrip r) 0%N) = false.
Proof.
  unfold rstrip. destruct (lstrip (rev r)) as [| d x] eqn:E.
  - now left.
  - right. simpl rev. rewrite last_last. exact (lstrip_head _ _ _ E).
Qed.

Lemma strip_trimmed (s : str) : trimmed (strip s).
Proof.
  unfold strip. destruct (lstrip s) as [| c r] eqn:E.
  - exact I.
  - pose proof (lstrip_head _ _ _ E) as Hc.
    rewrite (rstrip_cons _ _ Hc). simpl. split; [exact Hc |].
    destruct (rstrip_last r) as [-> | Hl]; [exact Hc |].
    destruct (rstrip r); [exact Hc | exact Hl].
Qed.

Lemma strip_fixed (t : str) : trimmed t -> strip t = t.
Proof.
  destruct t as [| c r]; [reflexivity |].
  intros [Hc Hl]. unfold strip. simpl lstrip. rewrite Hc.
  unfold rstrip.
  destruct (exists_last (l := c :: r)) as (l & d & E); [discriminate |].
  rewrite E in *. rewrite last_last in Hl.
  rewrite rev_unit. simpl lstrip. rewrite Hl.
  rewrite <- rev_unit. apply rev_involutive.
Qed.

Lemma strip_strip (s : str) : strip (strip s) = strip s.
Proof. apply strip_fixed, strip_trimmed. Qed.

Section TextFacts.

#[local] Open Scope N_scope.

Variable tbl : char -> str.

Lemma contains_In (c : char) (t : str) : contains c t = true <-> In c t.
Proof.
  unfold contains. rewrite existsb_exists. split.
  - intros (x & Hx & E). apply N.eqb_eq in E. now subst.
  - intros H. exists c. split; [exact H | apply N.eqb_refl].
Qed.

(** [any(ch in t for ch in ".?!")] holds exactly when some character of
    [t] is a sentence terminator. *)
Lemma any_terminal (t : str) :
  existsb (fun ch => contains ch t) (lit ".?!") = existsb terminal t.
Proof.
  apply eq_true_iff_eq. rewrite !existsb_exists. split.
  - intros (ch & Hch & Ht). apply contains_In in Ht.
    exists ch. split; [exact Ht |]. now apply contains_In.
  - intros (x & Hx & Ht). apply contains_In in Ht.
    exists x. split; [exact Ht |]. now apply contains_In.
Qed.

Lemma ends_in_terminal_any (t : str) :
  ends_in_terminal t = true -> existsb terminal t = true.
Proof.
  unfold ends_in_terminal. destruct (rev t) as [| c x] eqn:E; [discriminate |].
  intros Hc. apply existsb_exists. exists c. split; [| exact Hc].
  apply in_rev. rewrite E. now left.
Qed.

(** The two tests of lines 70-74 amount to one: a period is appended
    unless the capitalized string ends in a sentence terminator. *)
Lemma auto_punctuate_cons (text : str) (c : char) (rest : str) :
  strip text = c :: rest ->
  auto_punctuate tbl text =
    Ok (let u := upper tbl [c] ++ rest in
        u ++ (if ends_in_terminal u then [] else lit ".")).
Proof.
  intros E. unfold auto_punctuate. rewrite E. cbn -[upper lit existsb].
  rewrite any_terminal.
  destruct (existsb terminal (upper tbl [c] ++ rest)) eqn:Hany; cbn -[upper lit].
  - unfold last_char, ends_in_terminal.
    destruct (rev (upper tbl [c] ++ rest)) as [| cl x] eqn:Hrev.
    + apply (f_equal (@rev char)) in Hrev. rewrite rev_involutive in Hrev.
      rewrite Hrev in Hany. discriminate.
    + cbn -[upper lit]. fold (terminal cl).
      destruct (terminal cl); cbn -[upper lit]; now rewrite ?app_nil_r.
  - destruct (ends_in_terminal (upper tbl [c] ++ rest)) eqn:Hend.
    + apply ends_in_terminal_any in Hend. congruence.
    + reflexivity.
Qed.

Lemma auto_punctuate_blank (text : str) :
  strip text = [] -> auto_punctuate tbl text = Ok [].
Proof. intros E. unfold auto_punctuate. now rewrite E. Qed.

Lemma ends_in_terminal_app (a b : str) :
  b <> [] -> ends_in_terminal (a ++ b) = ends_in_terminal b.
Proof.
  intros Hb. unfold ends_in_terminal. rewrite rev_app_distr.
  destruct (exists_last Hb) as (l & d & ->). now rewrite rev_unit.
Qed.

Lemma ends_in_terminal_dot (a : str) : ends_in_terminal (a ++ lit ".") = true.
Proof. rewrite ends_in_terminal_app; [reflexivity | discriminate]. Qed.

Lemma ends_in_terminal_last (t : str) :
  ends_in_terminal t = true -> t <> [] /\ terminal (last t 0%N) = true.
Proof.
  unfold ends_in_terminal. destruct (rev t) as [| c x] eqn:E; [discriminate |].
  intros Hc. apply (f_equal (@rev char)) in E. rewrite rev_involutive in E.
  subst t. simpl rev. split.
  - intros H. now apply app_eq_nil in H as [_ H].
  - now rewrite last_last.
Qed.

Hypothesis table_ok : case_table_ok tbl.

(** The upper-case form of a character that is not white space begins with
    a character that is not white space and is its own upper-case form. *)
Lemma upper_char_head (c : char) :
  isspace c = false ->
  exists c' w, upper_char tbl c = c' :: w
               /\ isspace c' = false /\ upper_char tbl c' = [c'].
Proof.
  intros Hc. unfold upper_char at 1.
  destruct (N.ltb_spec c 128) as [Hlt | Hge].
  - destruct ((97 <=? c) && (c <=? 122))%N eqn:Hlow.
    + exists (c - 32)%N, []. split; [reflexivity |]. split.
      * unfold isspace. bool_N.
      * unfold upper_char.
        replace (c - 32 <? 128)%N with true by (symmetry; bool_N).
        replace ((97 <=? c - 32) && (c - 32 <=? 122))%N with false
          by (symmetry; bool_N).
        reflexivity.
    + exists c, []. split; [reflexivity |]. split; [exact Hc |].
      unfold upper_char. rewrite Hlow.
      now replace (c <? 128)%N with true by (symmetry; bool_N).
  - specialize (table_ok c Hge Hc). unfold upper_ok in table_ok.
    destruct (tbl c) as [| c' w]; [discriminate |].
    apply andb_true_iff in table_ok as [H12 _].
    apply andb_true_iff in H12 as [H1 H2].
    exists c', w. split; [reflexivity |]. split.
    + now apply negb_true_iff.
    + now apply str_eqb_eq.
Qed.

(** The upper-case form of a character ends in a sentence terminator only
    if the character is one. *)
Lemma upper_char_end (c : char) :
  isspace c = false ->
  ends_in_terminal (upper_char tbl c) = terminal c.
Proof.
  intros Hc. unfold upper_char.
  destruct (N.ltb_spec c 128) as [Hlt | Hge].
  - destruct ((97 <=? c) && (c <=? 122))%N eqn:Hlow; [| reflexivity].
    cbn. apply eq_true_iff_eq.
    change (terminal (c - 32) = true <-> terminal c = true).
    rewrite !terminal_cases. bool_N.
  - specialize (table_ok c Hge Hc). unfold upper_ok in table_ok.
    destruct (tbl c) as [| c' w] eqn:E; [discriminate |].
    apply andb_true_iff in table_ok as [_ H3].
    apply negb_true_iff in H3. fold (terminal (last (c' :: w) 0%N)) in H3.
    transitivity false.
    + destruct (ends_in_terminal (c' :: w)) eqn:Hend; [| reflexivity].
      apply ends_in_terminal_last in Hend as [_ Hend]. congruence.
    + symmetry. apply not_true_iff_false. rewrite terminal_cases. lia.
Qed.

End TextFacts.

Section TextClaims.

#[local] Open Scope N_scope.

Lemma latin1_table_ok : case_table_ok latin1_upper.
Proof.
  intros c Hge Hc. unfold upper_ok.
  set (up := upper_char latin1_upper). unfold latin1_upper.
  destruct (N.eqb_spec c 223) as [-> | H223]; [reflexivity |].
  destruct (N.eqb_spec c 181) as [-> | H181]; [reflexivity |].
  destruct (N.eqb_spec c 255) as [-> | H255]; [reflexivity |].
  destruct ((224 <=? c) && (c <=? 254) && negb (c =? 247))%N eqn:Hrange;
    subst up.
  - assert (Hsp : isspace (c - 32) = false) by (unfold isspace; bool_N).
    assert (Hup : upper_char latin1_upper (c - 32) = [(c - 32)%N]).
    { unfold upper_char, latin1_upper.
      replace (c - 32 <? 128)%N with false by (symmetry; bool_N).
      replace (c - 32 =? 223)%N with false by (symmetry; bool_N).
      replace (c - 32 =? 181)%N with false by (symmetry; bool_N).
      replace (c - 32 =? 255)%N with false by (symmetry; bool_N).
      replace (224 <=? c - 32)%N with false by (symmetry; bool_N).
      reflexivity. }
    rewrite Hsp, Hup. cbn [str_eqb last negb andb]. rewrite N.eqb_refl.
    cbn [andb]. fold (terminal (c - 32)).
    apply negb_true_iff, not_true_iff_false. rewrite terminal_cases. bool_N.
  - assert (Hup : upper_char latin1_upper c = [c]).
    { unfold upper_char, latin1_upper. rewrite Hrange.
      replace (c <? 128)%N with false by (symmetry; bool_N).
      replace (c =? 223)%N with false by (symmetry; bool_N).
      replace (c =? 181)%N with false by (symmetry; bool_N).
      replace (c =? 255)%N with false by (symmetry; bool_N).
      reflexivity. }
    rewrite Hc, Hup. cbn [str_eqb last negb andb]. rewrite N.eqb_refl.
    cbn [andb]. fold (terminal c).
    apply negb_true_iff, not_true_iff_false. rewrite terminal_cases. lia.
Qed.

(** C5, as amended.  For every input string that is not empty once stripped,
    [auto_punctuate] returns the stripped string with its first character in
    upper case and every other character as it was, followed by a period if
    and only if the stripped string does not end in '.', '?' or '!'. *)
Theorem auto_punctuate_nonblank (tbl : char -> str) (text : str) :
  case_table_ok tbl ->
  strip text <> [] ->
  auto_punctuate tbl text = Ok (punctuated tbl text).
Proof.
  intros Htbl Hne. pose proof (strip_trimmed text) as Htrim.
  unfold punctuated. cbv zeta.
  destruct (strip text) as [| c rest] eqn:E; [congruence |].
  rewrite (auto_punctuate_cons tbl text c rest E). cbv zeta.
  unfold capitalize_first. do 2 f_equal.
  destruct Htrim as [Hc _].
  destruct rest as [| d rest].
  - rewrite app_nil_r. unfold upper. cbn [flat_map]. rewrite app_nil_r.
    now rewrite (upper_char_end tbl Htbl c Hc).
  - rewrite ends_in_terminal_app by discriminate.
    change (c :: d :: rest) with ([c] ++ d :: rest).
    now rewrite ends_in_terminal_app by discriminate.
Qed.

Lemma auto_punctuate_nonblank_witness :
  auto_punctuate latin1_upper (223%N :: lit "a ok ")
  = Ok (punctuated latin1_upper (223%N :: lit "a ok ")).
Proof.
  apply (auto_punctuate_nonblank latin1_upper (223%N :: lit "a ok ")).
  - exact latin1_table_ok.
  - vm_compute. discriminate.
Defined.

(** C5, as stated, fails: a string of one space is not empty and does not
    end in a sentence terminator, and no period is appended to it. *)
Lemma auto_punctuate_blank_counterexample :
  lit " " <> []
  /\ auto_punctuate latin1_upper (lit " ") = Ok []
  /\ auto_punctuate latin1_upper (lit " ") <> Ok (punctuated latin1_upper (lit " ")).
Proof.
  split; [discriminate |]. split; [reflexivity |]. vm_compute. discriminate.
Qed.

(** C6, as amended.  [auto_punctuate] maps "hello there" to "Hello there."
    and "already punctuated!" to "Already punctuated!": no period is added
    to the second, and its first letter is capitalized. *)
Theorem auto_punctuate_examples (tbl : char -> str) :
  auto_punctuate tbl (lit "hello there") = Ok (lit "Hello there.")
  /\ auto_punctuate tbl (lit "already punctuated!")
     = Ok (lit "Already punctuated!").
Proof. split; reflexivity. Qed.

(** C6, as stated, fails: "already punctuated!" does not come back
    unchanged. *)
Lemma auto_punctuate_already_punctuated_changed :
  auto_punctuate latin1_upper (lit "already punctuated!")
  <> Ok (lit "already punctuated!").
Proof. vm_compute. discriminate. Qed.

(** C10.  [auto_punctuate] returns a string for every input, the empty string
    when the input is empty or white space only, and applying it to its own
    result gives that result again. *)
Theorem auto_punctuate_idempotent (tbl : char -> str) (s : str) :
  case_table_ok tbl ->
  (exists r, auto_punctuate tbl s = Ok r /\ auto_punctuate tbl r = Ok r)
  /\ (strip s = [] -> auto_punctuate tbl s = Ok []).
Proof.
  intros Htbl. split; [| apply auto_punctuate_blank].
  pose proof (strip_trimmed s) as Htrim.
  destruct (strip s) as [| c rest] eqn:E.
  - exists []. split; [now apply auto_punctuate_blank | reflexivity].
  - destruct Htrim as [Hc _].
    destruct (upper_char_head tbl Htbl c Hc) as (c' & w & Hup & Hc' & Hup').
    rewrite (auto_punctuate_cons tbl s c rest E). cbv zeta.
    remember (upper tbl [c] ++ rest) as u eqn:Hu.
    remember (u ++ (if ends_in_terminal u then [] else lit ".")) as r eqn:Hr0.
    assert (Hend : ends_in_terminal r = true).
    { rewrite Hr0. destruct (ends_in_terminal u) eqn:Hu'.
      - now rewrite app_nil_r.
      - apply ends_in_terminal_dot. }
    assert (Hr : r = c' :: (w ++ rest)
                        ++ (if ends_in_terminal u then [] else lit ".")).
    { rewrite Hr0, Hu. unfold upper. cbn [flat_map]. rewrite app_nil_r, Hup.
      reflexivity. }
    exists r. split; [reflexivity |].
    assert (Hfix : strip r = r).
    { apply strip_fixed. rewrite Hr. split; [exact Hc' |]. rewrite <- Hr.
      apply ends_in_terminal_last in Hend as [_ Hend].
      now apply terminal_not_space. }
    rewrite Hr in Hfix at 2.
    rewrite (auto_punctuate_cons tbl r c' _ Hfix). cbv zeta.
    unfold upper. cbn [flat_map]. rewrite app_nil_r, Hup'.
    change ([c'] ++ ?x) with (c' :: x). rewrite <- Hr, Hend.
    now rewrite app_nil_r.
Qed.

Lemma auto_punctuate_idempotent_witness :
  (exists r, auto_punctuate latin1_upper (lit " so it goes ") = Ok r
             /\ auto_punctuate latin1_upper r = Ok r)
  /\ auto_punctuate latin1_upper (lit "  ") = Ok [].
Proof.
  split.
  - apply (auto_punctuate_idempotent latin1_upper (lit " so it goes ")).
    exact latin1_table_ok.
  - apply (auto_punctuate_idempotent latin1_upper (lit "  ")).
    + exact latin1_table_ok.
    + reflexivity.
Defined.

(** No index is ever out of range: whatever the case table,
    [auto_punctuate] returns a string. *)
Lemma auto_punctuate_total (tbl : char -> str) (s : str) :
  exists r, auto_punctuate tbl s = Ok r.
Proof.
  destruct (strip s) as [| c rest] eqn:E.
  - exists []. now apply auto_punctuate_blank.
  - rewrite (auto_punctuate_cons tbl s c rest E). eauto.
Qed.

End TextClaims.

(** * Facts about the capture buffer *)

Lemma start_active (sd : device) (r : AudioRecorder) :
  _stream r <> None -> start sd r = (Ok tt, r).
Proof.
  intros H. unfold start. run_M.
  destruct (_stream r); [reflexivity | congruence].
Qed.

Lemma start_returns_active (sd : device) (r : AudioRecorder) :
  fst (start sd r) = Ok tt -> _stream (snd (start sd r)) <> None.
Proof.
  unfold start. run_M. destruct (_stream r) eqn:E; cbn.
  - intros _. now rewrite E.
  - destruct (open_fails sd); cbn; [discriminate |].
    destruct (start_fails sd); cbn; discriminate.
Qed.

Lemma start_inactive_clears (sd : device) (r : AudioRecorder) :
  _stream r = None -> _queue (snd (start sd r)) = [].
Proof.
  intros E. unfold start. run_M. rewrite E. cbn.
  destruct (open_fails sd); cbn; [reflexivity |].
  destruct (start_fails sd); reflexivity.
Qed.

Lemma deliver_stream (blocks : list block) (r : AudioRecorder) :
  _stream (deliver blocks r) = _stream r.
Proof.
  revert r. induction blocks as [| b bs IH]; intros r; [reflexivity |].
  cbn. now rewrite IH.
Qed.

Lemma deliver_queue (blocks : list block) (r : AudioRecorder) :
  _queue (deliver blocks r) = _queue r ++ blocks.
Proof.
  revert r. induction blocks as [| b bs IH]; intros r; cbn.
  - now rewrite app_nil_r.
  - rewrite IH. cbn. now rewrite <- app_assoc.
Qed.

(** C3.  When no stream is held, and so before any [start],
    [stop_and_get_audio] returns [None], does not raise and changes
    nothing. *)
Theorem stop_without_stream (r : AudioRecorder) :
  _stream r = None -> stop_and_get_audio r = (Ok None, r).
Proof.
  intros E. unfold stop_and_get_audio. run_M. now rewrite E.
Qed.

Lemma stop_without_stream_witness :
  stop_and_get_audio (new_recorder 16000 1) = (Ok None, new_recorder 16000 1).
Proof.
  apply (stop_without_stream (new_recorder 16000 1)). reflexivity.
Defined.

Lemma stop_empty_queue (r : AudioRecorder) :
  _queue r = [] -> fst (stop_and_get_audio r) = Ok None.
Proof.
  intros E. unfold stop_and_get_audio. run_M.
  destruct (_stream r); cbn; [| reflexivity]. now rewrite E.
Qed.

Lemma pairwise_sum_unfold (fuel : nat) (a : list float32) :
  pairwise_sum fuel a
  = if List.length a <? 8 then fold_left f32_add a f32_neg_zero
    else if List.length a <=? 128 then unrolled_sum a
    else
      match fuel with
      | O => f32_zero
      | S fuel' =>
          let n2 := List.length a / 2 - (List.length a / 2) mod 8 in
          f32_add (pairwise_sum fuel' (firstn n2 a))
                  (pairwise_sum fuel' (skipn n2 a))
      end.
Proof. now destruct fuel. Qed.

(** The length of the row is fuel enough: more changes nothing. *)
Lemma pairwise_sum_fuel (fuel fuel' : nat) (a : list float32) :
  List.length a <= fuel -> List.length a <= fuel' ->
  pairwise_sum fuel a = pairwise_sum fuel' a.
Proof.
  revert fuel' a. induction fuel as [| fuel IH]; intros fuel' a H H'.
  - rewrite !pairwise_sum_unfold.
    destruct (Nat.ltb_spec (List.length a) 8); [reflexivity | lia].
  - rewrite !pairwise_sum_unfold.
    destruct (Nat.ltb_spec (List.length a) 8); [reflexivity |].
    destruct (Nat.leb_spec (List.length a) 128); [reflexivity |].
    destruct fuel' as [| fuel']; [lia |]. cbv zeta.
    set (n2 := List.length a / 2 - (List.length a / 2) mod 8).
    assert (Hn2 : 0 < n2 < List.length a).
    { subst n2.
      pose proof (Nat.div_mod_eq (List.length a) 2).
      pose proof (Nat.mod_upper_bound (List.length a) 2).
      pose proof (Nat.mod_upper_bound (List.length a / 2) 8).
      lia. }
    f_equal; apply IH; rewrite ?length_firstn, ?length_skipn; lia.
Qed.

Lemma blocks_of_width_same (n : nat) (b : block) (bs : list block) :
  Shapes.blocks_of_width n (b :: bs) ->
  same_width (b :: bs) = true /\ ncols b = n.
Proof.
  intros H. inversion H as [| ? ? [Hb _] Hbs]; subst. split; [| reflexivity].
  cbn. apply forallb_forall. intros b' Hb'.
  rewrite Forall_forall in Hbs. destruct (Hbs b' Hb') as [-> _].
  apply Nat.eqb_refl.
Qed.



(** C8.  [start] on a recorder that holds a stream returns at once and
    changes nothing; so a second [start] after a first that returned keeps
    the stream and every block delivered since; calling it twice in a row
    leaves the recorder as calling it once; and a [start] on a recorder
    without a stream empties the queue first. *)
Theorem start_idempotent (sd sd' : device) (blocks : list block)
    (r : AudioRecorder) :
  (_stream r <> None -> start sd r = (Ok tt, r))
  /\ (fst (start sd r) = Ok tt ->
      let r1 := deliver blocks (snd (start sd r)) in
      start sd' r1 = (Ok tt, r1)
      /\ _stream r1 = _stream (snd (start sd r))
      /\ _queue r1 = _queue (snd (start sd r)) ++ blocks)
  /\ snd (start sd (snd (start sd r))) = snd (start sd r)
  /\ (_stream r = None -> _queue (snd (start sd r)) = []).
Proof.
  split; [apply start_active |]. split; [| split].
  - intros Hok. cbv zeta. split; [| split].
    + apply start_active. rewrite deliver_stream.
      now apply start_returns_active.
    + apply deliver_stream.
    + apply deliver_queue.
  - unfold start. run_M. destruct (_stream r) eqn:E; cbn.
    + now rewrite E.
    + destruct (open_fails sd); cbn; [now rewrite E |].
      destruct (start_fails sd); reflexivity.
  - apply start_inactive_clears.
Qed.

Lemma start_idempotent_witness :
  let r := deliver [ndarray 1 [[f32 1]]] (new_recorder 16000 1) in
  let r' := snd (start working r) in
  let r1 := deliver [ndarray 1 [[f32 3]]] r' in
  start unstartable stereo_clip = (Ok tt, stereo_clip)
  /\ _stream r' = Some Active
  /\ _queue r' = []
  /\ start working r1 = (Ok tt, r1)
  /\ _queue r1 = [ndarray 1 [[f32 3]]].
Proof.
  cbv zeta.
  pose proof (start_idempotent unstartable working [] stereo_clip)
    as (Hactive & _).
  pose proof (start_idempotent working working [ndarray 1 [[f32 3]]]
                (deliver [ndarray 1 [[f32 1]]] (new_recorder 16000 1)))
    as (_ & Htwice & _ & Hclear).
  split; [apply Hactive; discriminate |].
  split; [reflexivity |]. split; [apply Hclear; reflexivity |].
  destruct (Htwice eq_refl) as (H1 & _ & H3).
  split; [exact H1 | exact H3].
Defined.

(** * Facts about the controller *)

Lemma notifications_app (l1 l2 : list effect) :
  notifications (l1 ++ l2) = notifications l1 ++ notifications l2.
Proof.
  induction l1 as [| e l1 IH]; [reflexivity |].
  destruct e; cbn; now rewrite IH.
Qed.

Lemma published_app (l1 l2 : list effect) :
  published (l1 ++ l2) = published l1 ++ published l2.
Proof.
  induction l1 as [| e l1 IH]; [reflexivity |].
  destruct e; cbn; now rewrite IH.
Qed.

Lemma submitted_app (l1 l2 : list effect) :
  submitted (l1 ++ l2) = submitted l1 ++ submitted l2.
Proof.
  induction l1 as [| e l1 IH]; [reflexivity |].
  destruct e; cbn; now rewrite IH.
Qed.

(** What [_start_recording] leaves behind: the recorder after [start], and
    either the flag set with its notification, or a line on stderr. *)
Lemma start_recording_cases (sd : device) (c : VoicyController) :
  let c' := snd (_start_recording sd c) in
  fst (_start_recording sd c) = Ok tt
  /\ config c' = config c
  /\ recorder c' = snd (start sd (recorder c))
  /\ ((fst (start sd (recorder c)) = Ok tt
       /\ _recording c' = true
       /\ log c' = log c ++ [recording_changed true])
      \/ (exists e, fst (start sd (recorder c)) = Raise e
          /\ _recording c' = _recording c
          /\ log c' = log c ++ [printed "Error starting recording:" e])).
Proof.
  unfold _start_recording. run_M.
  destruct (start sd (recorder c)) as [[[] | e] r']; cbn.
  - conjs. left. conjs.
  - conjs. right. exists e. conjs.
Qed.

(** What [_stop_and_transcribe] leaves behind: the flag cleared, its
    notification, and after it at most one more effect. *)
Lemma stop_and_transcribe_cases (c : VoicyController) :
  let c' := snd (_stop_and_transcribe c) in
  let result := fst (stop_and_get_audio (recorder c)) in
  fst (_stop_and_transcribe c) = Ok tt
  /\ config c' = config c
  /\ recorder c' = snd (stop_and_get_audio (recorder c))
  /\ _recording c' = false
  /\ exists tail, log c' = log c ++ recording_changed false :: tail
     /\ ((tail = [] /\ (result = Ok None \/ result = Ok (Some [])))
         \/ (exists e, tail = [printed "Error stopping recording:" e]
                       /\ result = Raise e)
         \/ (exists a, tail = [thread_started a]
                       /\ result = Ok (Some a) /\ a <> [])).
Proof.
  unfold _stop_and_transcribe. run_M.
  destruct (stop_and_get_audio (recorder c)) as [[[[| x a] |] | e] r']; cbn.
  - conjs. exists []. split; [reflexivity |]. left. auto.
  - conjs. exists [thread_started (x :: a)].
    split; [now rewrite <- app_assoc |]. right. right.
    exists (x :: a). conjs. discriminate.
  - conjs. exists []. split; [reflexivity |]. left. auto.
  - conjs. exists [printed "Error stopping recording:" e].
    split; [now rewrite <- app_assoc |]. right. left. now exists e.
Qed.

(** What the worker leaves behind: the controller as it was, but for at most
    one more effect, which is a published text or a line on stderr. *)
Lemma transcribe_and_emit_cases (tbl : char -> str) (model : WhisperModel)
    (audio : list float32) (c : VoicyController) :
  let c' := snd (_transcribe_and_emit tbl model audio c) in
  fst (_transcribe_and_emit tbl model audio c) = Ok tt
  /\ config c' = config c
  /\ recorder c' = recorder c
  /\ _recording c' = _recording c
  /\ exists tail, log c' = log c ++ tail
     /\ (tail = [] \/ (exists t, tail = [text_ready t])
         \/ (exists e, tail = [printed "Transcription error:" e])).
Proof.
  unfold _transcribe_and_emit. run_M.
  destruct (model audio (lang_arg (config c))) as [parts | e]; cbn -[lit].
  - destruct (is_empty (strip (join (lit " ") parts))); cbn -[lit].
    + conjs. exists []. split; [now rewrite app_nil_r | now left].
    + destruct (dict_get (auto_punct (config c)) true); cbn -[lit].
      * destruct (auto_punctuate tbl (strip (join (lit " ") parts)))
          as [t | e]; cbn; conjs; eexists; split; eauto.
      * conjs; eexists; split; eauto.
  - conjs; eexists; split; eauto.
Qed.

Section Runs.

Variable tbl : char -> str.

(** One step adds to the log, and the notifications it adds are the
    change of the flag it makes, if any. *)
Lemma step_notifies (i : input) (c : VoicyController) :
  exists tail,
    log (step tbl i c) = log c ++ tail
    /\ notifications tail
       = if Bool.eqb (_recording c) (_recording (step tbl i c)) then []
         else [_recording (step tbl i c)].
Proof.
  destruct i as [sd | | sd | indata | model audio]; cbn [step].
  - unfold hold_to_talk_down. run_M.
    destruct (_recording c) eqn:Hrec.
    + exists []. cbn. now rewrite app_nil_r, Hrec.
    + destruct (start_recording_cases sd c)
        as (_ & _ & _ & [(_ & Hf & Hl) | (e & _ & Hf & Hl)]);
        rewrite Hf, Hl; eexists; split; try reflexivity.
      now rewrite Hrec.
  - unfold hold_to_talk_up. run_M.
    destruct (_recording c) eqn:Hrec; cbn [negb].
    + destruct (stop_and_transcribe_cases c)
        as (_ & _ & _ & Hf & tail & Hl & Htail).
      rewrite Hf, Hl. eexists; split; [reflexivity |]. cbn.
      destruct Htail as [[-> _] | [(e & -> & _) | (a & -> & _)]];
        reflexivity.
    + exists []. cbn. now rewrite app_nil_r, Hrec.
  - unfold toggle_recording. run_M.
    destruct (_recording c) eqn:Hrec.
    + destruct (stop_and_transcribe_cases c)
        as (_ & _ & _ & Hf & tail & Hl & Htail).
      rewrite Hf, Hl. eexists; split; [reflexivity |]. cbn.
      destruct Htail as [[-> _] | [(e & -> & _) | (a & -> & _)]];
        reflexivity.
    + destruct (start_recording_cases sd c)
        as (_ & _ & _ & [(_ & Hf & Hl) | (e & _ & Hf & Hl)]);
        rewrite Hf, Hl; eexists; split; try reflexivity.
      now rewrite Hrec.
  - exists []. cbn. now rewrite app_nil_r, eqb_reflx.
  - destruct (transcribe_and_emit_cases tbl model audio c)
      as (_ & _ & _ & Hf & tail & Hl & Htail).
    rewrite Hf, Hl, eqb_reflx. exists tail. split; [reflexivity |].
    destruct Htail as [-> | [(t & ->) | (e & ->)]]; reflexivity.
Qed.

Lemma run_cons (i : input) (ins : list input) (c : VoicyController) :
  run tbl (i :: ins) c = run tbl ins (step tbl i c).
Proof. reflexivity. Qed.

(** C1.  Along every sequence of calls of [hold_to_talk_down],
    [hold_to_talk_up] and [toggle_recording], with blocks arriving and
    workers running in between, the notifications emitted are the changes
    of the flag, one for each with the new value, in order; a
    [hold_to_talk_down] while recording and a [hold_to_talk_up] while idle
    change nothing and emit nothing. *)
Theorem notifications_follow_transitions (ins : list input)
    (c : VoicyController) :
  (exists emitted,
      log (run tbl ins c) = log c ++ emitted
      /\ notifications emitted = transitions tbl ins c)
  /\ (forall sd, _recording c = true -> step tbl (HoldDown sd) c = c)
  /\ (_recording c = false -> step tbl HoldUp c = c).
Proof.
  split; [| split].
  - revert c. induction ins as [| i ins IH]; intros c.
    + exists []. cbn. now rewrite app_nil_r.
    + rewrite run_cons. cbn [transitions].
      destruct (step_notifies i c) as (t1 & Hl1 & Hn1).
      destruct (IH (step tbl i c)) as (t2 & Hl2 & Hn2).
      exists (t1 ++ t2). split.
      * now rewrite Hl2, Hl1, app_assoc.
      * now rewrite notifications_app, Hn1, Hn2.
  - intros sd Hrec. cbn [step]. unfold hold_to_talk_down. run_M.
    now rewrite Hrec.
  - intros Hrec. cbn [step]. unfold hold_to_talk_up. run_M.
    now rewrite Hrec.
Qed.

End Runs.

Lemma notifications_follow_transitions_witness :
  let idle := new_controller default_config in
  let busy := run latin1_upper [HoldDown working] idle in
  step latin1_upper (HoldDown working) busy = busy
  /\ step latin1_upper HoldUp idle = idle.
Proof.
  cbv zeta.
  pose proof (notifications_follow_transitions latin1_upper []
                (run latin1_upper [HoldDown working]
                   (new_controller default_config))) as (_ & Hdown & _).
  pose proof (notifications_follow_transitions latin1_upper []
                (new_controller default_config)) as (_ & _ & Hup).
  split; [apply Hdown | apply Hup]; reflexivity.
Defined.

(** When [start] raises, the flag and the notifications stay as they
    were. *)
Lemma start_recording_failure (sd : device) (c : VoicyController) (e : exn) :
  fst (start sd (recorder c)) = Raise e ->
  _recording (snd (_start_recording sd c)) = _recording c
  /\ notifications (log (snd (_start_recording sd c))) = notifications (log c).
Proof.
  intros Hraise.
  destruct (start_recording_cases sd c)
    as (_ & _ & _ & [(Hok & _) | (e' & _ & Hf & Hl)]); [congruence |].
  split; [exact Hf |]. rewrite Hl, notifications_app. cbn.
  now rewrite app_nil_r.
Qed.

(** When the stream cannot be constructed, the recorder holds none. *)
Lemma start_open_failure (sd : device) (r : AudioRecorder) :
  _stream r = None -> open_fails sd = true ->
  fst (start sd r) = Raise PortAudioError /\ _stream (snd (start sd r)) = None.
Proof.
  intros E Ho. unfold start. run_M. rewrite E. cbn. rewrite Ho. cbn.
  now split.
Qed.

(** Without a microphone the constructor raises: the controller stays idle,
    emits nothing and holds no stream. *)
Lemma absent_device_never_starts :
  let c1 := snd (_start_recording absent (new_controller default_config)) in
  _recording c1 = false
  /\ notifications (log c1) = []
  /\ _stream (recorder c1) = None.
Proof. cbv zeta. conjs. Qed.

(** C2, at the failing input.  The stream is constructed and its [start()]
    raises: [_start_recording] leaves the flag down and emits nothing, and
    the recorder keeps the stream that never started; the next
    [hold_to_talk_down] then finds a stream, opens none, and reports
    Recording over the stream that is not running. *)
Theorem unstartable_stream_is_kept :
  let c0 := new_controller default_config in
  let c1 := snd (_start_recording unstartable c0) in
  let c2 := snd (hold_to_talk_down working c1) in
  fst (start unstartable (recorder c0)) = Raise PortAudioError
  /\ _recording c1 = false
  /\ notifications (log c1) = []
  /\ _stream (recorder c1) = Some Created
  /\ _recording c2 = true
  /\ notifications (log c2) = [true]
  /\ _stream (recorder c2) = Some Created.
Proof. cbv zeta. conjs. Qed.

(** C4.  With an empty queue [stop_and_get_audio] returns [None], as it
    does right after a [start] that found no stream, and the stop path of
    the controller then starts no transcription thread. *)
Theorem empty_session_submits_nothing (sd : device) (r : AudioRecorder)
    (c : VoicyController) :
  (_queue r = [] -> fst (stop_and_get_audio r) = Ok None)
  /\ (_stream r = None ->
      fst (stop_and_get_audio (snd (start sd r))) = Ok None)
  /\ (_queue (recorder c) = [] ->
      fst (_stop_and_transcribe c) = Ok tt
      /\ submitted (log (snd (_stop_and_transcribe c))) = submitted (log c))
  /\ (_stream (recorder c) = None -> _recording c = false ->
      submitted (log (snd (hold_to_talk_up (snd (hold_to_talk_down sd c)))))
      = submitted (log c)).
Proof.
  assert (Hstop : forall c0, _queue (recorder c0) = [] ->
            fst (_stop_and_transcribe c0) = Ok tt
            /\ submitted (log (snd (_stop_and_transcribe c0)))
               = submitted (log c0)).
  { intros c0 Hq. pose proof (stop_empty_queue _ Hq) as Hnone.
    destruct (stop_and_transcribe_cases c0)
      as (Hret & _ & _ & _ & tail & Hl & Htail).
    split; [exact Hret |]. rewrite Hl, submitted_app.
    destruct Htail as [[-> _] | [(e & _ & He) | (a & _ & Ha & _)]];
      [cbn; now rewrite app_nil_r | congruence | congruence]. }
  split; [apply stop_empty_queue |]. split; [| split].
  - intros E. apply stop_empty_queue. now apply start_inactive_clears.
  - apply Hstop.
  - intros E Hrec. unfold hold_to_talk_down at 1. run_M. rewrite Hrec.
    destruct (start_recording_cases sd c)
      as (_ & _ & Hr & [(_ & Hf & Hl) | (e & _ & Hf & Hl)]).
    + unfold hold_to_talk_up. run_M. rewrite Hf. cbn [negb].
      destruct (Hstop (snd (_start_recording sd c))) as [_ Hs].
      { rewrite Hr. now apply start_inactive_clears. }
      rewrite Hs, Hl, submitted_app. cbn. now rewrite app_nil_r.
    + unfold hold_to_talk_up. run_M. rewrite Hf, Hrec. cbn.
      rewrite Hl, submitted_app. cbn. now rewrite app_nil_r.
Qed.

Lemma empty_session_submits_nothing_witness :
  let idle := new_controller default_config in
  fst (stop_and_get_audio (new_recorder 16000 1)) = Ok None
  /\ fst (stop_and_get_audio (snd (start working (new_recorder 16000 1))))
     = Ok None
  /\ submitted (log (snd (_stop_and_transcribe idle))) = submitted (log idle)
  /\ submitted
       (log (snd (hold_to_talk_up (snd (hold_to_talk_down working idle)))))
     = submitted (log idle).
Proof.
  cbv zeta.
  pose proof (empty_session_submits_nothing working (new_recorder 16000 1)
                (new_controller default_config))
    as (Hempty & Hrec & Hstop & Hctl).
  split; [apply Hempty; reflexivity |].
  split; [apply Hrec; reflexivity |].
  split; [apply Hstop; reflexivity |].
  apply Hctl; reflexivity.
Defined.

(** A model that raises: the worker prints the error and publishes
    nothing. *)
Lemma raising_model_is_logged :
  let idle := new_controller default_config in
  let broken : WhisperModel := fun _ _ => Raise ModelError in
  _transcribe_and_emit latin1_upper broken [f32 1] idle
  = (Ok tt,
     snd (perform (printed "Transcription error:" ModelError) idle)).
Proof. reflexivity. Qed.

(** C9.  When the model raises, or the joined and stripped text of its
    segments is empty, the worker returns without publishing anything and
    leaves the flag, the notifications and the recorder as they were; and
    [_stop_and_transcribe] has cleared the flag and emitted the Idle
    notification before anything else it does, starting the thread
    included. *)
Theorem failed_worker_publishes_nothing (tbl : char -> str)
    (model : WhisperModel) (audio : list float32) (c : VoicyController) :
  ((exists e, model audio (lang_arg (config c)) = Raise e)
   \/ (exists parts, model audio (lang_arg (config c)) = Ok parts
                     /\ strip (join (lit " ") parts) = []) ->
   let c' := snd (_transcribe_and_emit tbl model audio c) in
   fst (_transcribe_and_emit tbl model audio c) = Ok tt
   /\ published (log c') = published (log c)
   /\ notifications (log c') = notifications (log c)
   /\ _recording c' = _recording c
   /\ recorder c' = recorder c)
  /\ (let c' := snd (_stop_and_transcribe c) in
      _recording c' = false
      /\ exists tail,
           log c' = log c ++ recording_changed false :: tail
           /\ notifications tail = []
           /\ published tail = []).
Proof.
  split.
  - intros H. cbv zeta. unfold _transcribe_and_emit. run_M.
    destruct H as [(e & ->) | (parts & -> & Hempty)]; cbn -[lit].
    + rewrite published_app, notifications_app. cbn.
      rewrite !app_nil_r. conjs.
    + rewrite Hempty. cbn. conjs.
  - cbv zeta.
    destruct (stop_and_transcribe_cases c)
      as (_ & _ & _ & Hf & tail & Hl & Htail).
    split; [exact Hf |]. exists tail. split; [exact Hl |].
    destruct Htail as [[-> _] | [(e & -> & _) | (a & -> & _)]]; now split.
Qed.

Lemma failed_worker_publishes_nothing_witness :
  let busy := run latin1_upper [HoldDown working]
                (new_controller default_config) in
  let silent : WhisperModel := fun _ _ => Ok [lit " "; lit ""] in
  published (log (snd (_transcribe_and_emit latin1_upper silent [f32 1] busy)))
  = published (log busy)
  /\ _recording (snd (_transcribe_and_emit latin1_upper silent [f32 1] busy))
     = _recording busy.
Proof.
  cbv zeta.
  pose proof (failed_worker_publishes_nothing latin1_upper
                (fun _ _ => Ok [lit " "; lit ""]) [f32 1]
                (run latin1_upper [HoldDown working]
                   (new_controller default_config))) as [Hworker _].
  destruct Hworker as (_ & Hpub & _ & Hrec & _).
  - right. exists [lit " "; lit ""]. split; reflexivity.
  - split; [exact Hpub | exact Hrec].
Defined.

(** * Facts about the configuration *)

Section SettingsFacts.

Import Settings.

Lemma str_eqb_refl (k : str) : str_eqb k k = true.
Proof. now apply str_eqb_eq. Qed.

Lemma str_eqb_neq (a b : str) : a <> b -> str_eqb a b = false.
Proof.
  intros H. apply not_true_iff_false. now rewrite str_eqb_eq.
Qed.

Lemma lookup_setitem_same (k : str) (v : value) (d : dict) :
  lookup k (setitem k v d) = Some v.
Proof.
  induction d as [| [k' v'] d IH]; cbn.
  - now rewrite str_eqb_refl.
  - destruct (str_eqb k k') eqn:E; cbn; rewrite E; [reflexivity | exact IH].
Qed.

Lemma lookup_setitem_other (k k' : str) (v : value) (d : dict) :
  k <> k' -> lookup k (setitem k' v d) = lookup k d.
Proof.
  intros Hne. induction d as [| [k2 v2] d IH]; cbn.
  - now rewrite (str_eqb_neq _ _ Hne).
  - destruct (str_eqb k' k2) eqn:E; cbn.
    + apply str_eqb_eq in E. subst k2. now rewrite (str_eqb_neq _ _ Hne).
    + now rewrite IH.
Qed.

Lemma lookup_none (k : str) (d : dict) :
  lookup k d = None <-> ~ In k (keys d).
Proof.
  induction d as [| [k' v'] d IH]; cbn; [tauto |].
  destruct (str_eqb k k') eqn:E.
  - apply str_eqb_eq in E. subst. split; [discriminate | tauto].
  - rewrite IH. split; [| tauto].
    intros H [-> | Hin]; [| tauto]. now rewrite str_eqb_refl in E.
Qed.

Lemma keys_setitem (k : str) (v : value) (d : dict) :
  keys (setitem k v d)
  = if existsb (str_eqb k) (keys d) then keys d else keys d ++ [k].
Proof.
  unfold keys. induction d as [| [k' v'] d IH]; cbn; [reflexivity |].
  destruct (str_eqb k k') eqn:E; cbn; [reflexivity |].
  rewrite IH. now destruct (existsb (str_eqb k) (map fst d)).
Qed.

Lemma setitem_wf (k : str) (v : value) (d : dict) :
  dict_wf d -> dict_wf (setitem k v d).
Proof.
  unfold dict_wf. intros Hwf. rewrite keys_setitem.
  destruct (existsb (str_eqb k) (keys d)) eqn:E; [exact Hwf |].
  apply NoDup_app; [exact Hwf | repeat constructor; tauto |].
  intros x Hin [Hx | []]. subst x.
  assert (existsb (str_eqb k) (keys d) = true); [| congruence].
  apply existsb_exists. exists k. split; [exact Hin | apply str_eqb_refl].
Qed.

Lemma update_wf (data d : dict) : dict_wf d -> dict_wf (update d data).
Proof.
  revert d. induction data as [| [k v] data IH]; intros d Hwf; [exact Hwf |].
  apply IH. now apply setitem_wf.
Qed.

(** A key of the data takes the value of the data, every other key keeps
    its own. *)
Lemma lookup_update (k : str) (data d : dict) :
  dict_wf data ->
  lookup k (update d data)
  = match lookup k data with Some v => Some v | None => lookup k d end.
Proof.
  revert d. induction data as [| [k1 v1] data IH]; intros d Hwf;
    [reflexivity |].
  unfold dict_wf in Hwf. cbn in Hwf. apply NoDup_cons_iff in Hwf as [Hk1 Hwf].
  cbn -[str_eqb]. fold (update (setitem k1 v1 d) data). rewrite (IH _ Hwf).
  destruct (str_eqb k k1) eqn:E.
  - apply str_eqb_eq in E. subst k1.
    apply lookup_none in Hk1. now rewrite Hk1, lookup_setitem_same.
  - rewrite lookup_setitem_other; [reflexivity |].
    intros ->. now rewrite str_eqb_refl in E.
Qed.

Lemma lookup_update_present (k : str) (data d : dict) :
  lookup k d <> None -> lookup k (update d data) <> None.
Proof.
  revert d. induction data as [| [k1 v1] data IH]; intros d H; [exact H |].
  apply IH. destruct (str_eqb k k1) eqn:E.
  - apply str_eqb_eq in E. subst. now rewrite lookup_setitem_same.
  - rewrite lookup_setitem_other; [exact H |].
    intros ->. now rewrite str_eqb_refl in E.
Qed.

Lemma default_wf : dict_wf DEFAULT_CONFIG.
Proof.
  unfold dict_wf. cbn.
  repeat (constructor; [cbn; intuition discriminate |]). constructor.
Qed.

(** X1.  Whatever the file at [CONFIG_PATH] is (absent, unreadable, not a
    JSON object, an object with any keys), [load_config] returns a mapping
    with pairwise different keys in which each of the five options of
    [DEFAULT_CONFIG] has a value: reading [config["model_size"]] cannot
    fail. *)
Theorem load_config_has_every_option (f : file) (k : str) :
  In k (keys DEFAULT_CONFIG) ->
  lookup k (load_config f) <> None /\ dict_wf (load_config f).
Proof.
  intros Hin.
  assert (Hdef : lookup k DEFAULT_CONFIG <> None).
  { intros H. now apply lookup_none in H. }
  unfold load_config.
  destruct f as [| e | [| b | z | s | l | items]]; cbn -[DEFAULT_CONFIG];
    try (split; [exact Hdef | exact default_wf]).
  split; [now apply lookup_update_present | apply update_wf, default_wf].
Qed.

Lemma load_config_has_every_option_witness :
  lookup (lit "model_size")
    (load_config (Holds (VDict [(lit "language", VStr (lit "de"))]))) <> None
  /\ dict_wf (load_config (Holds (VDict [(lit "language", VStr (lit "de"))]))).
Proof.
  apply (load_config_has_every_option
           (Holds (VDict [(lit "language", VStr (lit "de"))]))
           (lit "model_size")).
  cbn. tauto.
Defined.

(** X2.  When the file holds a JSON object, every key of the object has the
    value of the object in the loaded mapping, keys the program does not know
    included, and every other key has its default; a file that is absent,
    unreadable or holds another JSON value gives the defaults. *)
Theorem load_config_overrides (items : dict) (k : str) (f : file) :
  dict_wf items ->
  lookup k (load_config (Holds (VDict items)))
  = match lookup k items with
    | Some v => Some v
    | None => lookup k DEFAULT_CONFIG
    end
  /\ ((forall d, f <> Holds (VDict d)) -> load_config f = DEFAULT_CONFIG).
Proof.
  intros Hwf. split.
  - unfold load_config. cbn -[DEFAULT_CONFIG]. now apply lookup_update.
  - intros Hf. unfold load_config.
    destruct f as [| e | [| b | z | s | l | d]]; try reflexivity.
    now destruct (Hf d).
Qed.

Lemma load_config_overrides_witness :
  let items := [(lit "language", VStr (lit "de")); (lit "theme", VStr (lit "dark"))] in
  lookup (lit "theme") (load_config (Holds (VDict items)))
  = Some (VStr (lit "dark"))
  /\ load_config (Unreadable ValueError) = DEFAULT_CONFIG.
Proof.
  cbv zeta.
  pose proof (load_config_overrides
                [(lit "language", VStr (lit "de"));
                 (lit "theme", VStr (lit "dark"))]
                (lit "theme") (Unreadable ValueError)) as H.
  destruct H as [Hover Hdef].
  - unfold dict_wf. cbn.
    repeat (constructor; [cbn; intuition discriminate |]). constructor.
  - split; [exact Hover | apply Hdef; discriminate].
Defined.

End SettingsFacts.

Section SettingsRoundTrip.

Import Settings.

Lemma chosen_wf (ws : widgets) (config : dict) :
  dict_wf config -> dict_wf (chosen ws config).
Proof. intros H. unfold chosen. now repeat apply setitem_wf. Qed.

Lemma chosen_lookup (ws : widgets) (config : dict) :
  lookup (lit "model_size") (chosen ws config) = Some (VStr (model_combo ws))
  /\ lookup (lit "language") (chosen ws config) = Some (lang_combo ws)
  /\ lookup (lit "hold_hotkey") (chosen ws config)
     = Some (VStr (hold_combo ws))
  /\ lookup (lit "toggle_hotkey") (chosen ws config)
     = Some (VStr (toggle_combo ws))
  /\ lookup (lit "auto_punct") (chosen ws config)
     = Some (VBool (auto_punct_check ws)).
Proof.
  unfold chosen.
  conjs; rewrite ?lookup_setitem_other by (vm_compute; discriminate);
    apply lookup_setitem_same.
Qed.

Lemma chosen_lookup_other (ws : widgets) (config : dict) (k : str) :
  ~ In k (keys DEFAULT_CONFIG) ->
  lookup k (chosen ws config) = lookup k config.
Proof.
  intros Hk. unfold chosen. cbn in Hk.
  repeat (rewrite lookup_setitem_other; [| intros ->; tauto]).
  reflexivity.
Qed.

(** X3.  A mapping written by [save_config] is read back by [load_config]
    with the value of each of its keys, and the default for a default key
    it lacks; so saving what [load_config] returned and loading again gives
    the same value for every key.  Nothing is printed and nothing is
    raised. *)
Theorem save_load_round_trip (cfg : dict) (f : file) (d : disk) (k : str) :
  (dict_wf cfg ->
   let d' := snd (save_config Written cfg d) in
   fst (save_config Written cfg d) = Ok tt
   /\ stderr d' = stderr d
   /\ lookup k (load_config (config_file d'))
      = match lookup k cfg with
        | Some v => Some v
        | None => lookup k DEFAULT_CONFIG
        end)
  /\ lookup k (load_config
                 (config_file (snd (save_config Written (load_config f) d))))
     = lookup k (load_config f).
Proof.
  assert (Hgen : forall c, dict_wf c ->
            lookup k (load_config
                        (config_file (snd (save_config Written c d))))
            = match lookup k c with
              | Some v => Some v
              | None => lookup k DEFAULT_CONFIG
              end).
  { intros c Hwf. unfold save_config, json_dump. run_M.
    cbv [write_file modify]. cbn [snd config_file].
    unfold load_config. cbn -[DEFAULT_CONFIG]. now apply lookup_update. }
  split.
  - intros Hwf. cbv zeta. conjs. now apply Hgen.
  - assert (Hwf : dict_wf (load_config f)).
    { destruct f as [| e | [| b | z | s | l | items]];
        try exact default_wf.
      unfold load_config. cbn -[DEFAULT_CONFIG]. apply update_wf, default_wf. }
    rewrite (Hgen _ Hwf).
    destruct (lookup k (load_config f)) eqn:E; [reflexivity |].
    destruct (lookup k DEFAULT_CONFIG) eqn:Edef; [| reflexivity].
    exfalso. assert (Hin : In k (keys DEFAULT_CONFIG)).
    { destruct (in_dec Hotkeys.str_eq_dec k (keys DEFAULT_CONFIG)) as [Hin | Hout];
        [exact Hin |].
      apply lookup_none in Hout. congruence. }
    assert (Hdef : lookup k DEFAULT_CONFIG <> None) by congruence.
    revert E. destruct f as [| e | [| b | z | s | l | items]];
      try (cbn -[DEFAULT_CONFIG]; congruence).
    unfold load_config. cbn -[DEFAULT_CONFIG].
    now apply lookup_update_present.
Qed.

Lemma save_load_round_trip_witness :
  let cfg := [(lit "language", VStr (lit "fr"))] in
  let d := {| config_file := Missing; stderr := [] |} in
  lookup (lit "language")
    (load_config (config_file (snd (save_config Written cfg d))))
  = Some (VStr (lit "fr")).
Proof.
  cbv zeta.
  pose proof (save_load_round_trip [(lit "language", VStr (lit "fr"))]
                Missing {| config_file := Missing; stderr := [] |}
                (lit "language")) as [H _].
  destruct H as (_ & _ & H).
  - unfold dict_wf. cbn. repeat constructor. tauto.
  - exact H.
Defined.

(** X4.  [save_config] never raises.  When the file cannot be opened it
    stays as it was and one line goes to stderr; when the dump breaks off,
    the file is left undecodable, one line goes to stderr, and the next
    [load_config] returns the defaults, not the options that were there
    before. *)
Theorem save_config_failure (w : writing) (cfg : dict) (d : disk) (e : exn) :
  fst (save_config w cfg d) = Ok tt
  /\ (w = OpenRaises e ->
      snd (save_config w cfg d)
      = {| config_file := config_file d;
           stderr := stderr d ++ [("Failed to save config:"%string, e)] |})
  /\ (w = DumpRaises e ->
      load_config (config_file (snd (save_config w cfg d))) = DEFAULT_CONFIG
      /\ stderr (snd (save_config w cfg d))
         = stderr d ++ [("Failed to save config:"%string, e)]).
Proof.
  split; [| split].
  - now destruct w.
  - now intros ->.
  - now intros ->.
Qed.

Lemma save_config_failure_witness :
  let old := Holds (VDict [(lit "language", VStr (lit "fr"))]) in
  let d := {| config_file := old; stderr := [] |} in
  config_file (snd (save_config (OpenRaises ValueError) DEFAULT_CONFIG d)) = old
  /\ load_config
       (config_file (snd (save_config (DumpRaises ValueError) DEFAULT_CONFIG d)))
     = DEFAULT_CONFIG.
Proof.
  cbv zeta.
  pose proof (save_config_failure (OpenRaises ValueError) DEFAULT_CONFIG
                {| config_file :=
                     Holds (VDict [(lit "language", VStr (lit "fr"))]);
                   stderr := [] |} ValueError) as (_ & Hopen & _).
  pose proof (save_config_failure (DumpRaises ValueError) DEFAULT_CONFIG
                {| config_file :=
                     Holds (VDict [(lit "language", VStr (lit "fr"))]);
                   stderr := [] |} ValueError) as (_ & _ & Hdump).
  split.
  - now rewrite (Hopen eq_refl).
  - now destruct (Hdump eq_refl).
Defined.

(** X5.  After Save in the settings dialog, when the file is written, the
    next [load_config] returns the five values the widgets held, and for
    every other key the value the dialog's mapping had for it. *)
Theorem on_save_then_load (ws : widgets) (config : dict) (d : disk)
    (k : str) :
  dict_wf config ->
  let loaded :=
    load_config (config_file (snd (on_save Written ws config d))) in
  lookup (lit "model_size") loaded = Some (VStr (model_combo ws))
  /\ lookup (lit "language") loaded = Some (lang_combo ws)
  /\ lookup (lit "hold_hotkey") loaded = Some (VStr (hold_combo ws))
  /\ lookup (lit "toggle_hotkey") loaded = Some (VStr (toggle_combo ws))
  /\ lookup (lit "auto_punct") loaded = Some (VBool (auto_punct_check ws))
  /\ (~ In k (keys DEFAULT_CONFIG) -> lookup k loaded = lookup k config).
Proof.
  intros Hwf. cbv zeta.
  pose proof (chosen_wf ws config Hwf) as Hc.
  assert (Hfile : config_file (snd (on_save Written ws config d))
                  = Holds (VDict (chosen ws config))) by reflexivity.
  rewrite Hfile.
  assert (Hload : forall k', lookup k' (load_config (Holds (VDict (chosen ws config))))
            = match lookup k' (chosen ws config) with
              | Some v => Some v
              | None => lookup k' DEFAULT_CONFIG
              end).
  { intros k'. unfold load_config. cbn -[DEFAULT_CONFIG].
    now apply lookup_update. }
  destruct (chosen_lookup ws config) as (H1 & H2 & H3 & H4 & H5).
  rewrite !Hload, H1, H2, H3, H4, H5. conjs.
  intros Hk. rewrite (chosen_lookup_other ws config k Hk).
  destruct (lookup k config); [reflexivity |]. now apply lookup_none.
Qed.

Lemma on_save_then_load_witness :
  let ws := {| model_combo := lit "tiny"; lang_combo := VStr (lit "hi");
               hold_combo := lit "alt+space";
               toggle_combo := lit "alt+shift+space";
               auto_punct_check := false |} in
  let d := {| config_file := Missing; stderr := [] |} in
  lookup (lit "hold_hotkey")
    (load_config (config_file (snd (on_save Written ws DEFAULT_CONFIG d))))
  = Some (VStr (lit "alt+space")).
Proof.
  cbv zeta.
  pose proof (on_save_then_load
                {| model_combo := lit "tiny"; lang_combo := VStr (lit "hi");
                   hold_combo := lit "alt+space";
                   toggle_combo := lit "alt+shift+space";
                   auto_punct_check := false |}
                DEFAULT_CONFIG {| config_file := Missing; stderr := [] |}
                (lit "theme") default_wf) as (_ & _ & H & _).
  exact H.
Defined.

End SettingsRoundTrip.

(** * Facts about the hotkeys *)

Section HotkeyFacts.

Import Hotkeys Shapes.

Lemma split_not_nil (sep : char) (s : str) : split sep s <> [].
Proof.
  destruct s as [| c s]; cbn; [discriminate |].
  destruct (c =? sep)%N; [discriminate |].
  destruct (split sep s); discriminate.
Qed.

Lemma split_part (sep : char) (p : str) :
  ~ In sep p -> split sep p = [p].
Proof.
  induction p as [| c p IH]; intros H; cbn; [reflexivity |].
  destruct (N.eqb_spec c sep) as [-> | Hne]; [cbn in H; tauto |].
  rewrite IH; [reflexivity |]. cbn in H. tauto.
Qed.

Lemma split_part_sep (sep : char) (p rest : str) :
  ~ In sep p -> split sep (p ++ sep :: rest) = p :: split sep rest.
Proof.
  induction p as [| c p IH]; intros H; cbn.
  - now rewrite N.eqb_refl.
  - destruct (N.eqb_spec c sep) as [-> | Hne]; [cbn in H; tauto |].
    rewrite IH; [reflexivity |]. cbn in H. tauto.
Qed.

(** Splitting at the plus signs undoes joining with them. *)
Lemma split_join (p : str) (ps : list str) :
  Forall (fun q => ~ In plus q) (p :: ps) ->
  split plus (join [plus] (p :: ps)) = p :: ps.
Proof.
  revert p. induction ps as [| q ps IH]; intros p H.
  - cbn. apply split_part. now inversion H.
  - change (join [plus] (p :: q :: ps))
      with (p ++ plus :: join [plus] (q :: ps)).
    inversion H as [| ? ? Hp Hrest]; subst.
    rewrite (split_part_sep _ _ _ Hp). now rewrite IH.
Qed.

Lemma split_members (sep : char) (s p : str) (c : char) :
  In p (split sep s) -> In c p -> In c s /\ c <> sep.
Proof.
  revert p. induction s as [| x s IH]; intros p Hp Hc; cbn in Hp.
  - destruct Hp as [<- | []]. destruct Hc.
  - destruct (N.eqb_spec x sep) as [-> | Hne].
    + destruct Hp as [<- | Hp]; [destruct Hc |].
      destruct (IH p Hp Hc). split; [now right | assumption].
    + destruct (split sep s) as [| q qs] eqn:E.
      * destruct Hp as [<- | []]. destruct Hc as [<- | []].
        split; [now left | assumption].
      * destruct Hp as [<- | Hp].
        -- destruct Hc as [<- | Hc]; [split; [now left | assumption] |].
           destruct (IH q (or_introl eq_refl) Hc). split; [now right | assumption].
        -- destruct (IH p (or_intror Hp) Hc). split; [now right | assumption].
Qed.

Lemma lstrip_blank (s : str) : blank s = true -> lstrip s = [].
Proof.
  induction s as [| c s IH]; [reflexivity |]. cbn.
  intros H. apply andb_true_iff in H as [Hc Hs]. rewrite Hc. now apply IH.
Qed.

Lemma strip_blank (s : str) : blank s = true -> strip s = [].
Proof. intros H. unfold strip. now rewrite (lstrip_blank _ H). Qed.

(** X6.  A hotkey string made by joining keys with plus signs is parsed
    into those keys: blank ones are dropped, the others are stripped and put
    in lower case, the last is the base key and the ones before it are the
    modifiers; when no key is left the result is "space" with "ctrl". *)
Theorem parse_hold_hotkey_of_keys (lower : str -> str) (ks : list str) :
  Forall (fun k => ~ In plus k) ks ->
  let parts :=
    map (fun k => lower (strip k))
      (filter (fun k => negb (is_empty (strip k))) ks) in
  parse_hold_hotkey lower (join (lit "+") ks)
  = if is_nil parts then (lit "space", [lit "ctrl"])
    else (last parts [], set_of (removelast parts)).
Proof.
  intros H. cbv zeta. unfold parse_hold_hotkey, hotkey_parts.
  change (lit "+") with [plus].
  destruct ks as [| k ks]; [reflexivity |].
  now rewrite (split_join k ks H).
Qed.

Lemma parse_hold_hotkey_of_keys_witness :
  parse_hold_hotkey ascii_lower
    (join (lit "+") [lit " Ctrl "; lit " Alt"; lit ""; lit "space "])
  = (lit "space", [lit "ctrl"; lit "alt"]).
Proof.
  rewrite (parse_hold_hotkey_of_keys ascii_lower
             [lit " Ctrl "; lit " Alt"; lit ""; lit "space "]).
  - reflexivity.
  - repeat constructor; cbn; intuition discriminate.
Defined.

Lemma filter_none {A : Type} (f : A -> bool) (l : list A) :
  (forall x, In x l -> f x = false) -> filter f l = [].
Proof.
  induction l as [| a l IH]; intros H; [reflexivity |]. cbn.
  rewrite (H a (or_introl eq_refl)). apply IH. intros x Hx. apply H. now right.
Qed.

(** X7.  A hotkey string of plus signs and white space only, the empty
    string included, is parsed as "space" with "ctrl". *)
Theorem parse_hold_hotkey_blank (lower : str -> str) (hotkey_str : str) :
  forallb (fun c => (c =? plus)%N || isspace c) hotkey_str = true ->
  parse_hold_hotkey lower hotkey_str = (lit "space", [lit "ctrl"]).
Proof.
  intros H. unfold parse_hold_hotkey, hotkey_parts.
  assert (Hf : filter (fun p => negb (is_empty (strip p)))
                 (split plus hotkey_str) = []).
  { apply filter_none.
    intros p Hp. rewrite strip_blank; [reflexivity |].
    apply forallb_forall. intros c Hc.
    destruct (split_members _ _ _ _ Hp Hc) as [Hin Hne].
    rewrite forallb_forall in H. specialize (H c Hin).
    apply orb_true_iff in H as [H | H]; [| exact H].
    now apply N.eqb_eq in H. }
  now rewrite Hf.
Qed.

Lemma parse_hold_hotkey_blank_witness :
  parse_hold_hotkey ascii_lower (lit " + +") = (lit "space", [lit "ctrl"]).
Proof.
  apply (parse_hold_hotkey_blank ascii_lower (lit " + +")). reflexivity.
Defined.

Lemma last_member {A : Type} (l : list A) (d : A) :
  l <> [] -> In (last l d) l.
Proof.
  intros H. destruct (exists_last H) as (l' & a & ->).
  rewrite last_last. apply in_or_app. right. now left.
Qed.

Lemma removelast_member {A : Type} (l : list A) (x : A) :
  In x (removelast l) -> In x l.
Proof.
  destruct l as [| a l]; [tauto |]. intros H.
  rewrite (app_removelast_last a (l := a :: l)) by discriminate.
  apply in_or_app. now left.
Qed.

Lemma hotkey_parts_nonempty (lower : str -> str) (s p : str) :
  (forall t, t <> [] -> lower t <> []) ->
  In p (hotkey_parts lower s) -> p <> [].
Proof.
  intros Hlower Hp. unfold hotkey_parts in Hp.
  apply in_map_iff in Hp as (q & <- & Hq).
  apply filter_In in Hq as [_ Hq]. apply Hlower.
  now destruct (strip q).
Qed.

(** X8.  Whatever the hotkey string, the base key parsed from it is not
    the empty string, no modifier is, and no modifier is listed twice,
    for a [str.lower] that maps no string with characters to the empty
    string. *)
Theorem parse_hold_hotkey_keys_nonempty (lower : str -> str)
    (hotkey_str : str) :
  (forall t, t <> [] -> lower t <> []) ->
  fst (parse_hold_hotkey lower hotkey_str) <> []
  /\ (forall m, In m (snd (parse_hold_hotkey lower hotkey_str)) -> m <> [])
  /\ NoDup (snd (parse_hold_hotkey lower hotkey_str)).
Proof.
  intros Hlower. unfold parse_hold_hotkey.
  destruct (hotkey_parts lower hotkey_str) as [| p ps] eqn:E.
  - cbn. split; [discriminate |]. split.
    + intros m [<- | []]. discriminate.
    + repeat constructor. tauto.
  - cbn [is_nil fst snd]. rewrite <- E. split; [| split].
    + apply (hotkey_parts_nonempty lower hotkey_str _ Hlower).
      apply last_member. rewrite E. discriminate.
    + intros m Hm. apply (hotkey_parts_nonempty lower hotkey_str _ Hlower).
      apply removelast_member. unfold set_of in Hm.
      now apply nodup_In in Hm.
    + apply NoDup_nodup.
Qed.

Lemma ascii_lower_nonempty (t : str) : t <> [] -> ascii_lower t <> [].
Proof. now destruct t. Qed.

Lemma parse_hold_hotkey_keys_nonempty_witness :
  fst (parse_hold_hotkey ascii_lower (lit "ctrl+ctrl+shift+")) <> []
  /\ NoDup (snd (parse_hold_hotkey ascii_lower (lit "ctrl+ctrl+shift+"))).
Proof.
  destruct (parse_hold_hotkey_keys_nonempty ascii_lower
              (lit "ctrl+ctrl+shift+") ascii_lower_nonempty)
    as (Hbase & _ & Hmods).
  split; [exact Hbase | exact Hmods].
Defined.

(** X9.  Releasing the base key of the hold hotkey leaves the controller
    idle, whatever the modifiers do and whoever started the recording, and
    raises nothing; releasing any other key changes nothing. *)
Theorem on_key_up_stops (hold : str * list str) (event_name : str)
    (c : VoicyController) :
  fst (on_key_up hold event_name c) = Ok tt
  /\ (event_name = fst hold ->
      Controller._recording (snd (on_key_up hold event_name c)) = false)
  /\ (event_name <> fst hold -> snd (on_key_up hold event_name c) = c).
Proof.
  destruct hold as [hold_base hold_mods]. unfold on_key_up. cbn [fst].
  split; [| split].
  - destruct (str_eqb event_name hold_base); [| reflexivity].
    unfold hold_to_talk_up. run_M.
    destruct (Controller._recording c); cbn [negb]; [| reflexivity].
    now destruct (stop_and_transcribe_cases c).
  - intros ->. rewrite str_eqb_refl. unfold hold_to_talk_up. run_M.
    destruct (Controller._recording c) eqn:Hrec; cbn [negb]; [| exact Hrec].
    now destruct (stop_and_transcribe_cases c) as (_ & _ & _ & Hf & _).
  - intros Hne. now rewrite (str_eqb_neq _ _ Hne).
Qed.

Lemma on_key_up_stops_witness :
  let hold := parse_hold_hotkey ascii_lower (lit "ctrl+space") in
  let busy := snd (toggle_recording working (new_controller default_config)) in
  Controller._recording busy = true
  /\ Controller._recording (snd (on_key_up hold (lit "space") busy)) = false
  /\ snd (on_key_up hold (lit "ctrl") busy) = busy.
Proof.
  cbv zeta.
  pose proof (on_key_up_stops
                (parse_hold_hotkey ascii_lower (lit "ctrl+space"))
                (lit "space")
                (snd (toggle_recording working (new_controller default_config))))
    as (_ & Hstop & _).
  pose proof (on_key_up_stops
                (parse_hold_hotkey ascii_lower (lit "ctrl+space"))
                (lit "ctrl")
                (snd (toggle_recording working (new_controller default_config))))
    as (_ & _ & Hother).
  split; [reflexivity |]. split.
  - apply Hstop. reflexivity.
  - apply Hother. vm_compute. discriminate.
Defined.

(** X10.  A key press starts nothing unless it is the base key and every
    modifier is pressed at that moment; while recording, a repeated press of
    the base key changes nothing; and when the controller is idle, the key
    and the modifiers match and the stream starts, the controller is
    recording afterwards and has emitted the one notification. *)
Theorem on_key_down_gate (hold : str * list str) (is_pressed : str -> bool)
    (sd : device) (event_name : str) (c : VoicyController) :
  (event_name <> fst hold ->
   snd (on_key_down hold is_pressed sd event_name c) = c)
  /\ ((exists m, In m (snd hold) /\ is_pressed m = false) ->
      snd (on_key_down hold is_pressed sd event_name c) = c)
  /\ (Controller._recording c = true ->
      snd (on_key_down hold is_pressed sd event_name c) = c)
  /\ (event_name = fst hold ->
      (forall m, In m (snd hold) -> is_pressed m = true) ->
      Controller._recording c = false ->
      fst (start sd (recorder c)) = Ok tt ->
      let c' := snd (on_key_down hold is_pressed sd event_name c) in
      Controller._recording c' = true
      /\ log c' = log c ++ [recording_changed true]).
Proof.
  destruct hold as [hold_base hold_mods]. unfold on_key_down. cbn [fst snd].
  split; [| split; [| split]].
  - intros Hne. now rewrite (str_eqb_neq _ _ Hne).
  - intros (m & Hin & Hm).
    destruct (str_eqb event_name hold_base); [| reflexivity].
    assert (Hall : forallb is_pressed hold_mods = false).
    { apply not_true_iff_false. rewrite forallb_forall. intros H.
      specialize (H m Hin). congruence. }
    now rewrite Hall.
  - intros Hrec.
    destruct (str_eqb event_name hold_base); [| reflexivity].
    destruct (forallb is_pressed hold_mods); [| reflexivity].
    unfold hold_to_talk_down. run_M. now rewrite Hrec.
  - intros -> Hall Hrec Hstart. cbv zeta. rewrite str_eqb_refl.
    apply forallb_forall in Hall. rewrite Hall.
    unfold hold_to_talk_down. run_M. rewrite Hrec.
    destruct (start_recording_cases sd c)
      as (_ & _ & _ & [(_ & Hf & Hl) | (e & He & _)]); [| congruence].
    now split.
Qed.

Lemma on_key_down_gate_witness :
  let hold := parse_hold_hotkey ascii_lower (lit "ctrl+space") in
  let idle := new_controller default_config in
  let ctrl_only := fun m : str => str_eqb m (lit "ctrl") in
  let nothing := fun _ : str => false in
  snd (on_key_down hold ctrl_only working (lit "a") idle) = idle
  /\ snd (on_key_down hold nothing working (lit "space") idle) = idle
  /\ Controller._recording
       (snd (on_key_down hold ctrl_only working (lit "space") idle)) = true
  /\ (let busy := snd (on_key_down hold ctrl_only working (lit "space") idle) in
      snd (on_key_down hold ctrl_only working (lit "space") busy) = busy).
Proof.
  cbv zeta.
  set (hold := parse_hold_hotkey ascii_lower (lit "ctrl+space")).
  set (idle := new_controller default_config).
  set (ctrl_only := fun m : str => str_eqb m (lit "ctrl")).
  pose proof (on_key_down_gate hold ctrl_only working (lit "a") idle)
    as (Hother & _).
  pose proof (on_key_down_gate hold (fun _ => false) working (lit "space") idle)
    as (_ & Hmods & _).
  pose proof (on_key_down_gate hold ctrl_only working (lit "space") idle)
    as (_ & _ & _ & Hstart).
  pose proof (on_key_down_gate hold ctrl_only working (lit "space")
                (snd (on_key_down hold ctrl_only working (lit "space") idle)))
    as (_ & _ & Hrepeat & _).
  split; [apply Hother; vm_compute; discriminate |].
  split; [apply Hmods; exists (lit "ctrl"); split; [now left | reflexivity] |].
  split.
  - apply Hstart; try reflexivity.
    intros m [<- | []]. reflexivity.
  - apply Hrepeat. reflexivity.
Defined.

End HotkeyFacts.

(** * More facts about the capture buffer *)

Section RecorderFacts.

Import Shapes.

Lemma column0_length (audio : block) (a : list float32) :
  column0 audio = Ok a -> List.length a = List.length (rows audio).
Proof.
  unfold column0. destruct (ncols audio =? 0); [discriminate |].
  intros E. injection E as <-. apply length_map.
Qed.

Lemma concatenate_rows (frames : list block) (audio : block) :
  concatenate frames = Ok audio -> rows audio = all_rows frames.
Proof.
  unfold concatenate. destruct frames as [| b bs]; [discriminate |].
  destruct (same_width (b :: bs)); [| discriminate].
  intros E. now injection E as <-.
Qed.

Lemma deliver_closed (blocks : list block) (r : AudioRecorder) :
  deliver blocks r = set_queue (_queue r ++ blocks) r.
Proof.
  revert r. induction blocks as [| b bs IH]; intros r; cbn.
  - rewrite app_nil_r. now destruct r.
  - rewrite IH. cbn. now rewrite <- app_assoc.
Qed.

Lemma stop_stream (r : AudioRecorder) :
  _stream (snd (stop_and_get_audio r)) = None
  /\ channels (snd (stop_and_get_audio r)) = channels r
  /\ samplerate (snd (stop_and_get_audio r)) = samplerate r.
Proof.
  unfold stop_and_get_audio. run_M.
  destruct (_stream r) eqn:E; cbn -[Nat.ltb concatenate];
    [| now rewrite E].
  destruct (is_nil (_queue r)); cbn -[Nat.ltb concatenate]; [conjs |].
  unfold lift. destruct (concatenate (_queue r)) as [audio | e];
    cbn -[Nat.ltb]; [| conjs].
  destruct (1 <? channels r); cbn; [conjs |].
  destruct (column0 audio); conjs.
Qed.

Lemma start_shape (sd : device) (r : AudioRecorder) :
  channels (snd (start sd r)) = channels r
  /\ samplerate (snd (start sd r)) = samplerate r.
Proof.
  unfold start. run_M. destruct (_stream r); cbn; [conjs |].
  destruct (open_fails sd); cbn; [conjs |].
  destruct (start_fails sd); conjs.
Qed.

Lemma start_raises_stream (sd : device) (r : AudioRecorder) :
  start_fails sd = false -> _stream r = None ->
  fst (start sd r) <> Ok tt -> _stream (snd (start sd r)) = None.
Proof.
  intros Hs E. unfold start. run_M. rewrite E, Hs. cbn.
  destruct (open_fails sd); cbn; [intros _; exact E | congruence].
Qed.

(** X11.  After [stop_and_get_audio] the recorder holds no stream and has
    the rate and the channels it had; if it held a stream its queue is
    empty, whatever was returned or raised; and a second
    [stop_and_get_audio] returns [None] and changes nothing. *)
Theorem stop_resets_recorder (r : AudioRecorder) :
  let r' := snd (stop_and_get_audio r) in
  _stream r' = None
  /\ channels r' = channels r
  /\ samplerate r' = samplerate r
  /\ (_stream r <> None -> _queue r' = [])
  /\ stop_and_get_audio r' = (Ok None, r').
Proof.
  cbv zeta. destruct (stop_stream r) as (Hs & Hc & Hr).
  split; [exact Hs |]. split; [exact Hc |]. split; [exact Hr |]. split.
  - unfold stop_and_get_audio. run_M.
    destruct (_stream r); [intros _ | congruence].
    cbn -[Nat.ltb concatenate].
    destruct (is_nil (_queue r)); cbn -[Nat.ltb concatenate];
      [reflexivity |].
    unfold lift. destruct (concatenate (_queue r)) as [audio | e];
      cbn -[Nat.ltb]; [| reflexivity].
    destruct (1 <? channels r); cbn; [reflexivity |].
    now destruct (column0 audio).
  - revert Hs. generalize (snd (stop_and_get_audio r)). intros r' Hs.
    unfold stop_and_get_audio. run_M. now rewrite Hs.
Qed.

Lemma stop_resets_recorder_witness :
  _queue (snd (stop_and_get_audio stereo_clip)) = [].
Proof.
  destruct (stop_resets_recorder stereo_clip) as (_ & _ & _ & H & _).
  apply H. discriminate.
Defined.

(** X12.  With one channel, a recorder that holds a stream and a queue of
    blocks of one width returns column 0 of the blocks in the order they
    were delivered, in single precision; when the blocks have no column,
    [IndexError] is raised instead, and when they disagree on the number of
    columns, [ValueError]. *)
Theorem stop_mono_clip (r : AudioRecorder) (n : nat) :
  _stream r <> None ->
  _queue r <> [] ->
  channels r <= 1 ->
  (blocks_of_width n (_queue r) -> 0 < n ->
   fst (stop_and_get_audio r)
   = Ok (Some (map astype_float32 (first_column (all_rows (_queue r))))))
  /\ (blocks_of_width 0 (_queue r) ->
      fst (stop_and_get_audio r) = Raise IndexError)
  /\ (same_width (_queue r) = false ->
      fst (stop_and_get_audio r) = Raise ValueError).
Proof.
  intros Hs Hq Hch. apply Nat.ltb_ge in Hch.
  unfold stop_and_get_audio. run_M.
  destruct (_stream r); [| congruence]. cbn -[Nat.ltb same_width all_rows].
  destruct (_queue r) as [| b q]; [congruence |].
  cbn -[Nat.ltb same_width all_rows]. split; [| split].
  - intros Hw Hn. destruct (blocks_of_width_same n b q Hw) as [Hsame Hb].
    rewrite Hsame. cbn -[Nat.ltb all_rows]. rewrite Hch.
    unfold lift, column0. cbn -[all_rows]. rewrite Hb.
    destruct n; [lia | reflexivity].
  - intros Hw. destruct (blocks_of_width_same 0 b q Hw) as [Hsame Hb].
    rewrite Hsame. cbn -[Nat.ltb all_rows]. rewrite Hch.
    unfold lift, column0. cbn -[all_rows]. now rewrite Hb.
  - intros Hw. now rewrite Hw.
Qed.

Lemma stop_mono_clip_witness :
  let started := snd (start working (new_recorder 16000 1)) in
  fst (stop_and_get_audio
         (deliver [ndarray 1 [[f32 1]; [f32 3]]; ndarray 1 [[f32 2]]] started))
  = Ok (Some [f32 1; f32 3; f32 2])
  /\ fst (stop_and_get_audio (deliver [ndarray 0 [[]]] started))
     = Raise IndexError
  /\ fst (stop_and_get_audio
            (deliver [ndarray 1 [[f32 1]]; ndarray 0 [[]]] started))
     = Raise ValueError.
Proof.
  cbv zeta.
  set (started := snd (start working (new_recorder 16000 1))).
  destruct (stop_mono_clip
              (deliver [ndarray 1 [[f32 1]; [f32 3]]; ndarray 1 [[f32 2]]]
                 started) 1) as (Hclip & _).
  { discriminate. }
  { discriminate. }
  { cbn. lia. }
  destruct (stop_mono_clip (deliver [ndarray 0 [[]]] started) 0)
    as (_ & Hindex & _).
  { discriminate. }
  { discriminate. }
  { cbn. lia. }
  destruct (stop_mono_clip
              (deliver [ndarray 1 [[f32 1]]; ndarray 0 [[]]] started) 0)
    as (_ & _ & Hvalue).
  { discriminate. }
  { discriminate. }
  { cbn. lia. }
  split; [| split].
  - rewrite Hclip; [reflexivity | | lia].
    repeat constructor.
  - apply Hindex. repeat constructor.
  - apply Hvalue. reflexivity.
Defined.

(** X13.  Whenever [stop_and_get_audio] returns a clip, the clip has one
    sample for every row of the queued blocks, with one channel or with
    several. *)
Theorem stop_sample_count (r : AudioRecorder) (a : list float32) :
  fst (stop_and_get_audio r) = Ok (Some a) ->
  List.length a = List.length (all_rows (_queue r)).
Proof.
  unfold stop_and_get_audio. run_M.
  destruct (_stream r); cbn -[Nat.ltb concatenate]; [| discriminate].
  destruct (is_nil (_queue r)); cbn -[Nat.ltb concatenate]; [discriminate |].
  unfold lift. destruct (concatenate (_queue r)) as [audio | e] eqn:Hcat;
    cbn -[Nat.ltb]; [| discriminate].
  rewrite <- (concatenate_rows _ _ Hcat).
  destruct (1 <? channels r); cbn.
  - intros E. injection E as <-. unfold mean_axis1.
    now rewrite !length_map.
  - destruct (column0 audio) eqn:E; [| discriminate].
    intros E'. injection E' as <-. rewrite length_map.
    now apply column0_length.
Qed.

Lemma stop_sample_count_witness :
  List.length [f32 2] = List.length (all_rows (_queue stereo_clip)).
Proof.
  apply (stop_sample_count stereo_clip [f32 2]). reflexivity.
Defined.

End RecorderFacts.

(** * More facts about the controller *)

Section ControllerFacts.

Import Shapes.

Variable tbl : char -> str.

Lemma run_app (a b : list input) (c : VoicyController) :
  run tbl (a ++ b) c = run tbl b (run tbl a c).
Proof. apply fold_left_app. Qed.

Lemma run_frames (blocks : list block) (c : VoicyController) :
  run tbl (map Frame blocks) c = set_recorder (deliver blocks (recorder c)) c.
Proof.
  revert c. induction blocks as [| b bs IH]; intros c.
  - now destruct c.
  - change (run tbl (map Frame (b :: bs)) c)
      with (run tbl (map Frame bs) (step tbl (Frame b) c)).
    now rewrite IH.
Qed.

(** What one step does to the flag and to the recorder. *)
Lemma step_recorder (i : input) (c : VoicyController) :
  (_recording (step tbl i c) = true -> _stream (recorder (step tbl i c)) <> None)
  \/ (_recording (step tbl i c) = _recording c
      /\ _stream (recorder (step tbl i c)) = _stream (recorder c)).
Proof.
  destruct i as [sd | | sd | indata | model audio]; cbn [step].
  - unfold hold_to_talk_down. run_M. destruct (_recording c) eqn:Hrec.
    + right. cbn. now split.
    + left. destruct (start_recording_cases sd c)
        as (_ & _ & Hr & [(Hok & _) | (e & _ & Hf & _)]).
      * intros _. rewrite Hr. now apply start_returns_active.
      * congruence.
  - unfold hold_to_talk_up. run_M. destruct (_recording c) eqn:Hrec;
      cbn [negb].
    + left. destruct (stop_and_transcribe_cases c) as (_ & _ & _ & Hf & _).
      congruence.
    + right. cbn. now split.
  - unfold toggle_recording. run_M. destruct (_recording c) eqn:Hrec.
    + left. destruct (stop_and_transcribe_cases c) as (_ & _ & _ & Hf & _).
      congruence.
    + left. destruct (start_recording_cases sd c)
        as (_ & _ & Hr & [(Hok & _) | (e & _ & Hf & _)]).
      * intros _. rewrite Hr. now apply start_returns_active.
      * congruence.
  - right. now split.
  - right. destruct (transcribe_and_emit_cases tbl model audio c)
      as (_ & _ & Hr & Hf & _). now rewrite Hr, Hf.
Qed.

Lemma step_idle_recorder (i : input) (c : VoicyController) :
  starts i = true ->
  (_recording c = false -> _stream (recorder c) = None) ->
  _recording (step tbl i c) = false ->
  _stream (recorder (step tbl i c)) = None.
Proof.
  intros Hi Hinv.
  destruct i as [sd | | sd | indata | model audio]; cbn [step];
    cbn [starts] in Hi; try apply negb_true_iff in Hi.
  - unfold hold_to_talk_down. run_M. destruct (_recording c) eqn:Hrec;
      [cbn; congruence |].
    destruct (start_recording_cases sd c)
      as (_ & _ & Hr & [(_ & Hf & _) | (e & He & _ & _)]); [congruence |].
    intros _. rewrite Hr. apply start_raises_stream; [exact Hi | auto |].
    congruence.
  - unfold hold_to_talk_up. run_M. destruct (_recording c) eqn:Hrec;
      cbn [negb]; [| cbn; auto].
    destruct (stop_and_transcribe_cases c) as (_ & _ & Hr & _).
    intros _. rewrite Hr. apply stop_stream.
  - unfold toggle_recording. run_M. destruct (_recording c) eqn:Hrec.
    + destruct (stop_and_transcribe_cases c) as (_ & _ & Hr & _).
      intros _. rewrite Hr. apply stop_stream.
    + destruct (start_recording_cases sd c)
        as (_ & _ & Hr & [(_ & Hf & _) | (e & He & _ & _)]); [congruence |].
      intros _. rewrite Hr. apply start_raises_stream; [exact Hi | auto |].
      congruence.
  - cbn. auto.
  - destruct (transcribe_and_emit_cases tbl model audio c)
      as (_ & _ & Hr & Hf & _). rewrite Hr, Hf. auto.
Qed.

Lemma run_recording_stream (ins : list input) (c : VoicyController) :
  (_recording c = true -> _stream (recorder c) <> None) ->
  _recording (run tbl ins c) = true ->
  _stream (recorder (run tbl ins c)) <> None.
Proof.
  revert c. induction ins as [| i ins IH]; intros c Hinv; [exact Hinv |].
  rewrite run_cons. apply IH.
  destruct (step_recorder i c) as [H | [Hf Hs]]; [exact H |].
  rewrite Hf, Hs. exact Hinv.
Qed.

Lemma run_idle_stream (ins : list input) (c : VoicyController) :
  forallb starts ins = true ->
  (_recording c = false -> _stream (recorder c) = None) ->
  _recording (run tbl ins c) = false ->
  _stream (recorder (run tbl ins c)) = None.
Proof.
  revert c. induction ins as [| i ins IH]; intros c Hins Hinv; [exact Hinv |].
  cbn in Hins. apply andb_true_iff in Hins as [Hi Hins].
  rewrite run_cons. apply (IH _ Hins). now apply step_idle_recorder.
Qed.

(** X14.  From a new controller, after any sequence of calls, blocks and
    workers, a controller that is recording holds a stream; and when no
    [start()] of a stream raised, a controller that is idle holds none. *)
Theorem recording_holds_stream (ins : list input) (cfg : Config) :
  let c := run tbl ins (new_controller cfg) in
  (_recording c = true -> _stream (recorder c) <> None)
  /\ (forallb starts ins = true -> _recording c = false ->
      _stream (recorder c) = None).
Proof.
  cbv zeta. split.
  - apply run_recording_stream. discriminate.
  - intros Hins. now apply run_idle_stream.
Qed.

Lemma last_cons_default {A : Type} (x : A) (l : list A) (d d' : A) :
  last (x :: l) d = last l x /\ last (x :: l) d = last (x :: l) d'.
Proof.
  revert x d d'. induction l as [| y l IH]; intros x d d'; [now split |].
  change (last (x :: y :: l) d) with (last (y :: l) d).
  change (last (x :: y :: l) d') with (last (y :: l) d').
  split; apply IH.
Qed.

(** The notifications of a run never repeat a value, and the last is the
    flag. *)
Lemma run_alternates (ins : list input) (c : VoicyController) :
  exists emitted,
    log (run tbl ins c) = log c ++ emitted
    /\ alternates (_recording c) (notifications emitted) = true
    /\ last (notifications emitted) (_recording c)
       = _recording (run tbl ins c).
Proof.
  revert c. induction ins as [| i ins IH]; intros c.
  - exists []. cbn. now rewrite app_nil_r.
  - rewrite run_cons.
    destruct (step_notifies tbl i c) as (t1 & Hl1 & Hn1).
    destruct (IH (step tbl i c)) as (t2 & Hl2 & Ha2 & Hlast2).
    exists (t1 ++ t2). split; [now rewrite Hl2, Hl1, app_assoc |].
    rewrite notifications_app, Hn1.
    destruct (Bool.eqb (_recording c) (_recording (step tbl i c))) eqn:E.
    + apply eqb_prop in E. rewrite E. now split.
    + cbn [app alternates]. split.
      * rewrite Ha2, andb_true_r.
        destruct (_recording c), (_recording (step tbl i c));
          cbn in *; congruence.
      * rewrite <- Hlast2.
        exact (proj1 (last_cons_default _ _ _ (_recording c))).
Qed.

(** X15.  The notifications emitted along any run never carry the same
    value twice in a row, and the first differs from the state the run
    started in: subscribers see Recording and Idle in turn. *)
Theorem notifications_alternate (ins : list input) (c : VoicyController) :
  exists emitted,
    log (run tbl ins c) = log c ++ emitted
    /\ alternates (_recording c) (notifications emitted) = true.
Proof.
  destruct (run_alternates ins c) as (emitted & Hl & Ha & _).
  now exists emitted.
Qed.

(** X16.  No exception leaves the three entry points or the worker,
    whatever the device and the model do, and none of them changes the
    configuration. *)
Theorem entry_points_never_raise (sd : device) (model : WhisperModel)
    (audio : list float32) (c : VoicyController) :
  (fst (hold_to_talk_down sd c) = Ok tt
   /\ config (snd (hold_to_talk_down sd c)) = config c)
  /\ (fst (hold_to_talk_up c) = Ok tt
      /\ config (snd (hold_to_talk_up c)) = config c)
  /\ (fst (toggle_recording sd c) = Ok tt
      /\ config (snd (toggle_recording sd c)) = config c)
  /\ (fst (_transcribe_and_emit tbl model audio c) = Ok tt
      /\ config (snd (_transcribe_and_emit tbl model audio c)) = config c).
Proof.
  destruct (start_recording_cases sd c) as (Hs1 & Hs2 & _).
  destruct (stop_and_transcribe_cases c) as (Hp1 & Hp2 & _).
  destruct (transcribe_and_emit_cases tbl model audio c) as (Hw1 & Hw2 & _).
  unfold hold_to_talk_down, hold_to_talk_up, toggle_recording. run_M.
  destruct (_recording c); cbn [negb]; conjs; assumption.
Qed.

(** X17.  When the model returns segments whose joined and stripped text is
    not empty, the worker publishes exactly one text, which is not empty:
    that text itself when auto-punctuation is off, and the result of
    [auto_punctuate], ending in a sentence terminator, when it is on or not
    configured. *)
Theorem worker_publishes_one_text (model : WhisperModel)
    (audio : list float32) (c : VoicyController) (parts : list str) :
  model audio (lang_arg (config c)) = Ok parts ->
  strip (join (lit " ") parts) <> [] ->
  exists t,
    log (snd (_transcribe_and_emit tbl model audio c))
    = log c ++ [text_ready t]
    /\ t <> []
    /\ (auto_punct (config c) = Some false -> t = strip (join (lit " ") parts))
    /\ (auto_punct (config c) <> Some false ->
        auto_punctuate tbl (strip (join (lit " ") parts)) = Ok t
        /\ ends_in_terminal t = true).
Proof.
  intros Hmodel Hne. unfold _transcribe_and_emit. run_M.
  rewrite Hmodel. cbn -[lit].
  destruct (strip (join (lit " ") parts)) as [| x text] eqn:E; [congruence |].
  cbn -[lit auto_punctuate]. rewrite <- E.
  destruct (auto_punct (config c)) as [[|] |] eqn:Hcfg; cbn -[lit auto_punctuate].
  1, 3:
    pose proof (strip_strip (join (lit " ") parts)) as Hss;
    rewrite E in Hss at 2;
    rewrite (auto_punctuate_cons tbl _ x text Hss); cbv zeta;
    cbn -[lit upper];
    eexists; split; [reflexivity |];
    assert (Hend : ends_in_terminal
              ((upper tbl [x] ++ text)
               ++ (if ends_in_terminal (upper tbl [x] ++ text)
                   then [] else lit ".")) = true)
      by (destruct (ends_in_terminal (upper tbl [x] ++ text)) eqn:Hu;
          [now rewrite app_nil_r | apply ends_in_terminal_dot]);
    split; [intros H; rewrite H in Hend; discriminate |];
    split; [discriminate |]; intros _; split; [reflexivity | exact Hend].
  eexists. split; [reflexivity |]. split; [congruence |].
  split; [reflexivity | congruence].
Qed.

End ControllerFacts.

Lemma recording_holds_stream_witness :
  let ins := [HoldDown absent; Toggle working; Frame (ndarray 1 [[f32 1]])] in
  let c := run latin1_upper ins (new_controller default_config) in
  _recording c = true
  /\ _stream (recorder c) <> None
  /\ _stream (recorder (run latin1_upper (ins ++ [HoldUp])
                          (new_controller default_config))) = None.
Proof.
  cbv zeta.
  pose proof (recording_holds_stream latin1_upper
                [HoldDown absent; Toggle working; Frame (ndarray 1 [[f32 1]])]
                default_config) as [Hrec _].
  pose proof (recording_holds_stream latin1_upper
                ([HoldDown absent; Toggle working; Frame (ndarray 1 [[f32 1]])] ++ [HoldUp])
                default_config) as [_ Hidle].
  split; [reflexivity |]. split.
  - apply Hrec. reflexivity.
  - apply Hidle; reflexivity.
Defined.

Lemma worker_publishes_one_text_witness :
  let model : WhisperModel := fun _ _ => Ok [lit " so it"; lit "goes "] in
  exists t,
    log (snd (_transcribe_and_emit latin1_upper model [f32 1]
                (new_controller default_config)))
    = [text_ready t]
    /\ t <> [].
Proof.
  cbv zeta.
  destruct (worker_publishes_one_text latin1_upper
              (fun _ _ => Ok [lit " so it"; lit "goes "]) [f32 1]
              (new_controller default_config) [lit " so it"; lit "goes "])
    as (t & Hlog & Hne & _).
  - reflexivity.
  - vm_compute. discriminate.
  - exists t. split; [exact Hlog | exact Hne].
Defined.

Section SessionFacts.

Import Shapes.

Variable tbl : char -> str.

(** X18.  A whole session on a working device, from a new controller,
    with blocks of one column as the stream of the controller delivers
    them: whatever blocks arrived before the key went down are dropped,
    and on release the blocks that arrived in between are handed to one
    transcription thread as one clip, column 0 of their rows in order;
    when they hold no row at all, no thread is started.  The controller is
    idle again and its recorder is as new. *)
Theorem session_clip (cfg : Config) (stale blocks : list block) :
  blocks_of_width 1 blocks ->
  let ins := map Frame stale
             ++ HoldDown working :: map Frame blocks ++ [HoldUp] in
  let c := run tbl ins (new_controller cfg) in
  log c
  = [recording_changed true; recording_changed false]
    ++ (if is_nil (all_rows blocks) then []
        else [thread_started
                (map astype_float32 (first_column (all_rows blocks)))])
  /\ _recording c = false
  /\ recorder c = new_recorder 16000 1.
Proof.
  intros Hw. cbv zeta.
  rewrite run_app, run_frames, run_cons, run_app, run_frames.
  rewrite !deliver_closed.
  destruct blocks as [| b bs]; [now cbn |].
  destruct (blocks_of_width_same 1 b bs Hw) as [Hsame Hb].
  remember (all_rows (b :: bs)) as audio eqn:Haudio.
  unfold run, step, fold_left, hold_to_talk_down, hold_to_talk_up,
    _start_recording, _stop_and_transcribe, start, stop_and_get_audio.
  run_M. cbn -[all_rows same_width Nat.eqb List.length].
  rewrite Hsame. unfold lift, column0.
  cbn -[all_rows Nat.eqb List.length]. rewrite Hb.
  cbn -[all_rows List.length]. rewrite <- Haudio.
  unfold first_column. rewrite !length_map.
  destruct audio as [| r a]; cbn; conjs.
Qed.

(** X19.  When the stream cannot be constructed, the controller stays
    idle, holds no stream and prints one line; a later press on a working
    device then records as if nothing had happened. *)
Theorem open_failure_is_recoverable (sd : device) (c : VoicyController) :
  _recording c = false ->
  _stream (recorder c) = None ->
  open_fails sd = true ->
  let c1 := snd (hold_to_talk_down sd c) in
  let c2 := snd (hold_to_talk_down working c1) in
  (_recording c1 = false
   /\ _stream (recorder c1) = None
   /\ log c1 = log c ++ [printed "Error starting recording:" PortAudioError])
  /\ (_recording c2 = true
      /\ _stream (recorder c2) = Some Active
      /\ _queue (recorder c2) = []
      /\ log c2 = log c1 ++ [recording_changed true]).
Proof.
  intros Hrec Hs Ho. cbv zeta.
  unfold hold_to_talk_down, _start_recording, start. run_M.
  rewrite Hrec. cbn. rewrite Hs. cbn. rewrite Ho. cbn.
  rewrite Hrec. cbn. rewrite Hs. cbn. conjs.
Qed.

End SessionFacts.

Lemma session_clip_witness :
  let ins := map Frame [ndarray 2 [[f32 3; f32 3]]]
             ++ HoldDown working
                :: map Frame [ndarray 1 [[f32 1]]; ndarray 1 []; ndarray 1 [[f32 2]]] ++ [HoldUp] in
  log (run latin1_upper ins (new_controller default_config))
  = [recording_changed true; recording_changed false;
     thread_started [f32 1; f32 2]].
Proof.
  cbv zeta.
  destruct (session_clip latin1_upper default_config
              [ndarray 2 [[f32 3; f32 3]]]
              [ndarray 1 [[f32 1]]; ndarray 1 []; ndarray 1 [[f32 2]]])
    as (H & _).
  - repeat constructor.
  - exact H.
Defined.

Lemma open_failure_is_recoverable_witness :
  let c1 := snd (hold_to_talk_down absent (new_controller default_config)) in
  _recording (snd (hold_to_talk_down working c1)) = true.
Proof.
  cbv zeta.
  pose proof (open_failure_is_recoverable absent
                (new_controller default_config) eq_refl eq_refl eq_refl)
    as (_ & H & _).
  exact H.
Defined.

(** * Facts about the indicator and the text injection *)

Section DotFacts.

Import Shapes.

Variable keyboard : str -> res unit.

Lemma deliver_signals_app (l1 l2 : list effect) (d : Dot.DotWindow) :
  Dot.deliver_signals keyboard (l1 ++ l2) d
  = Dot.deliver_signals keyboard l2 (Dot.deliver_signals keyboard l1 d).
Proof. apply fold_left_app. Qed.

Lemma slot_text (text : str) (d : Dot.DotWindow) :
  Dot._recording (Dot.slot keyboard (text_ready text) d) = Dot._recording d
  /\ Dot.typed (Dot.slot keyboard (text_ready text) d)
     = Dot.typed d ++ (if Dot.is_ok (keyboard text) then [text] else []).
Proof.
  cbn. unfold Dot.on_text_ready, Dot.typewrite. run_M.
  destruct (keyboard text); cbn; [now split |]. now rewrite app_nil_r.
Qed.

(** The window shows the last notification it received, and has typed the
    published texts the keyboard took. *)
Lemma deliver_signals_state (l : list effect) (d : Dot.DotWindow) :
  Dot._recording (Dot.deliver_signals keyboard l d)
  = last (notifications l) (Dot._recording d)
  /\ Dot.typed (Dot.deliver_signals keyboard l d)
     = Dot.typed d
       ++ filter (fun t => Dot.is_ok (keyboard t)) (published l).
Proof.
  revert d. induction l as [| e l IH]; intros d.
  - cbn. now rewrite app_nil_r.
  - change (Dot.deliver_signals keyboard (e :: l) d)
      with (Dot.deliver_signals keyboard l (Dot.slot keyboard e d)).
    destruct (IH (Dot.slot keyboard e d)) as [Hrec Htyped].
    rewrite Hrec, Htyped.
    destruct e as [b | text | audio | msg ex]; cbn [notifications published].
    + split; [| reflexivity].
      change (Dot._recording (Dot.slot keyboard (recording_changed b) d))
        with b.
      symmetry.
      exact (proj1 (last_cons_default b (notifications l)
                      (Dot._recording d) b)).
    + destruct (slot_text text d) as [H1 H2]. rewrite H1, H2.
      split; [reflexivity |]. cbn [filter].
      destruct (Dot.is_ok (keyboard text)); now rewrite <- app_assoc.
    + now split.
    + now split.
Qed.

(** X20.  An indicator connected to a new controller, once it has received
    the signals of any run, shows the state of the controller: it is drawn
    in red exactly when the controller is recording, in blue when it is
    idle. *)
Theorem indicator_shows_state (tbl : char -> str) (ins : list input)
    (cfg : Config) :
  let c := run tbl ins (new_controller cfg) in
  let dot := Dot.deliver_signals keyboard (log c) Dot.new_dot in
  Dot._recording dot = _recording c
  /\ Dot.color dot
     = if _recording c then (255, 59, 59)%Z else (76, 111, 255)%Z.
Proof.
  cbv zeta.
  destruct (run_alternates tbl ins (new_controller cfg))
    as (emitted & Hl & _ & Hlast).
  cbn [log new_controller app _recording] in Hl, Hlast.
  destruct (deliver_signals_state
              (log (run tbl ins (new_controller cfg))) Dot.new_dot)
    as [Hrec _].
  assert (H : Dot._recording
                (Dot.deliver_signals keyboard
                   (log (run tbl ins (new_controller cfg))) Dot.new_dot)
              = _recording (run tbl ins (new_controller cfg))).
  { rewrite Hrec, Hl. exact Hlast. }
  split; [exact H |]. unfold Dot.color. now rewrite H.
Qed.

(** X21.  The window hands every published text to the keyboard, in the
    order of publication; a text the keyboard refuses is not typed and
    stops neither the later ones nor the indicator. *)
Theorem typed_texts (l : list effect) (d : Dot.DotWindow) :
  Dot.typed (Dot.deliver_signals keyboard l d)
  = Dot.typed d ++ filter (fun t => Dot.is_ok (keyboard t)) (published l)
  /\ Dot._recording (Dot.deliver_signals keyboard l d)
     = last (notifications l) (Dot._recording d).
Proof.
  destruct (deliver_signals_state l d) as [H1 H2]. now split.
Qed.

End DotFacts.

(** * More facts about the text post-processing *)

Section TextPadding.

Import Shapes.

Lemma lstrip_padding (pre s : str) :
  blank pre = true -> lstrip (pre ++ s) = lstrip s.
Proof.
  induction pre as [| c pre IH]; [reflexivity |]. cbn.
  intros H. apply andb_true_iff in H as [Hc Hpre]. rewrite Hc. now apply IH.
Qed.

Lemma blank_rev (s : str) : blank s = true -> blank (rev s) = true.
Proof.
  unfold blank. rewrite !forallb_forall. intros H c Hc.
  apply H. now apply in_rev.
Qed.

Lemma rstrip_padding (s post : str) :
  blank post = true -> rstrip (s ++ post) = rstrip s.
Proof.
  intros H. unfold rstrip. rewrite rev_app_distr.
  now rewrite (lstrip_padding _ _ (blank_rev _ H)).
Qed.

Lemma lstrip_app (s post : str) :
  lstrip s <> [] -> lstrip (s ++ post) = lstrip s ++ post.
Proof.
  induction s as [| c s IH]; cbn; [congruence |].
  destruct (isspace c); [exact IH | reflexivity].
Qed.

Lemma rstrip_blank (s : str) : blank s = true -> rstrip s = [].
Proof.
  intros H. unfold rstrip. now rewrite (lstrip_blank _ (blank_rev _ H)).
Qed.

Lemma lstrip_nil_blank (s : str) : lstrip s = [] -> blank s = true.
Proof.
  induction s as [| c s IH]; [reflexivity |]. cbn.
  destruct (isspace c); [exact IH | discriminate].
Qed.

Lemma strip_padding (pre s post : str) :
  blank pre = true -> blank post = true ->
  strip (pre ++ s ++ post) = strip s.
Proof.
  intros Hpre Hpost. unfold strip. rewrite (lstrip_padding _ _ Hpre).
  destruct (lstrip s) as [| c t] eqn:E.
  - rewrite (lstrip_padding _ _ (lstrip_nil_blank _ E)).
    now rewrite (lstrip_blank _ Hpost).
  - rewrite lstrip_app by congruence. rewrite E.
    now apply rstrip_padding.
Qed.

(** X22.  White space before and after the text makes no difference to
    [auto_punctuate]. *)
Theorem auto_punctuate_ignores_padding (tbl : char -> str)
    (pre s post : str) :
  blank pre = true -> blank post = true ->
  auto_punctuate tbl (pre ++ s ++ post) = auto_punctuate tbl s.
Proof.
  intros Hpre Hpost. unfold auto_punctuate.
  now rewrite (strip_padding _ _ _ Hpre Hpost).
Qed.

Lemma auto_punctuate_ignores_padding_witness :
  auto_punctuate latin1_upper (lit "  " ++ lit "so it goes" ++ lit " ")
  = auto_punctuate latin1_upper (lit "so it goes").
Proof.
  apply (auto_punctuate_ignores_padding latin1_upper
           (lit "  ") (lit "so it goes") (lit " ")); reflexivity.
Defined.

(** X23.  Whatever the case table, the result of [auto_punctuate] is empty
    exactly when the input is empty or white space only, and otherwise it
    ends in '.', '?' or '!'. *)
Theorem auto_punctuate_terminated (tbl : char -> str) (s r : str) :
  auto_punctuate tbl s = Ok r ->
  (r = [] <-> strip s = [])
  /\ (strip s <> [] -> ends_in_terminal r = true).
Proof.
  intros H. destruct (strip s) as [| c rest] eqn:E.
  - rewrite (auto_punctuate_blank tbl s E) in H. injection H as <-.
    split; [tauto | congruence].
  - rewrite (auto_punctuate_cons tbl s c rest E) in H. cbv zeta in H.
    injection H as <-.
    assert (Hend : ends_in_terminal
              ((upper tbl [c] ++ rest)
               ++ (if ends_in_terminal (upper tbl [c] ++ rest)
                   then [] else lit ".")) = true).
    { destruct (ends_in_terminal (upper tbl [c] ++ rest)) eqn:Hu;
        [now rewrite app_nil_r | apply ends_in_terminal_dot]. }
    split; [| intros _; exact Hend].
    split; [| discriminate].
    intros Hnil. apply ends_in_terminal_last in Hend as [Hne _].
    exfalso. exact (Hne Hnil).
Qed.

Lemma auto_punctuate_terminated_witness :
  ends_in_terminal (lit "Is it so?") = true.
Proof.
  destruct (auto_punctuate_terminated latin1_upper (lit " is it so? ")
              (lit "Is it so?") eq_refl) as [_ H].
  apply H. vm_compute. discriminate.
Defined.

End TextPadding.
